(** * yolo_detect.py: frame acquisition, detection filtering and signalling

    A shallow embedding of [my_model/yolo_detect.py].  The script is a
    straight-line start-up phase, one [while True] loop and a clean-up
    block.  Everything the script obtains from its collaborators (the file
    system, the serial port, the capture device, the detector, the
    keyboard) is an explicit input of the model; everything it does to them
    is recorded as an [event] of the run's trace.

    Conventions.
    - A Python [str] is a [string] whose characters are the code points
      0..255 (Latin-1); this covers every literal of the script ('×' is
      code point 215).
    - A Python [int] is a [Z]; a numpy [int64] is a [Z] with its
      wrap-around written out; a Python [float] is a primitive binary64
      [float].
    - [sys.exit], [break] and a raised exception are the non-[Ret]
      constructors of [outcome]. *)

From stdpp Require Import base option list gmap strings.
From Stdlib Require Import ZArith String Ascii Lia.
From Stdlib Require Import PrimFloat FloatOps SpecFloat FloatAxioms.
From Stdlib Require Import DecimalString.
From Stdlib Require DecimalPos.

Set Warnings "-inexact-float".
Open Scope Z_scope.

(** ** Control flow: exceptions, [sys.exit], [break] *)

Inductive exn :=
| ValueError
| KeyError
| OverflowError
| IndexError
| SerialException.

(** What a piece of the script ends with: it falls through with a value,
    leaves the enclosing loop, ends the process through [sys.exit(code)], or
    lets an exception propagate. *)
Inductive outcome (A : Type) :=
| Ret (a : A)
| Break
| Exit (code : Z)
| Raise (e : exn).
Arguments Ret {A} a.
Arguments Break {A}.
Arguments Exit {A} code.
Arguments Raise {A} e.

(** ** Python built-ins on strings *)

Module Py.

(** [str.lower] on one Latin-1 code point: A..Z and the capitals
    U+00C0..U+00DE (U+00D7, the multiplication sign, is no letter). *)
Definition lower_char (c : ascii) : ascii :=
  let n := nat_of_ascii c in
  if ((65 <=? n) && (n <=? 90) ||
      (192 <=? n) && (n <=? 222) && negb (n =? 215))%nat
  then ascii_of_nat (n + 32) else c.

Fixpoint lower (s : string) : string :=
  match s with
  | EmptyString => EmptyString
  | String c s' => String (lower_char c) (lower s')
  end.

(** [sub in s] *)
Fixpoint contains (sub s : string) : bool :=
  String.prefix sub s ||
  match s with
  | EmptyString => false
  | String _ s' => contains sub s'
  end.

(** [s[n:]] for [0 <= n] *)
Fixpoint slice_from (n : nat) (s : string) : string :=
  match n, s with
  | O, _ => s
  | S n', String _ s' => slice_from n' s'
  | S _, EmptyString => EmptyString
  end.

(** [s[:n]] for [0 <= n] *)
Fixpoint slice_to (n : nat) (s : string) : string :=
  match n, s with
  | S n', String c s' => String c (slice_to n' s')
  | _, _ => EmptyString
  end.

(** [s.rfind(c)] for a one-character [c]: the last index, or -1. *)
Fixpoint rfind_from (c : ascii) (s : string) (i last : Z) : Z :=
  match s with
  | EmptyString => last
  | String x s' => rfind_from c s' (i + 1) (if Ascii.eqb x c then i else last)
  end.

Definition rfind (c : ascii) (s : string) : Z := rfind_from c s 0 (-1).

(** [s.replace(a, b)] for one-character [a] and [b]. *)
Fixpoint replace_char (a b : ascii) (s : string) : string :=
  match s with
  | EmptyString => EmptyString
  | String c s' => String (if Ascii.eqb c a then b else c) (replace_char a b s')
  end.

(** [s.split(c)] for a one-character separator: never the empty list. *)
Fixpoint split_on (c : ascii) (s : string) : list string :=
  match s with
  | EmptyString => [EmptyString]
  | String x s' =>
      if Ascii.eqb x c then EmptyString :: split_on c s'
      else match split_on c s' with
           | [] => [String x EmptyString]
           | w :: ws => String x w :: ws
           end
  end.

(** White space as [int(str)] skips it at both ends. *)
Definition is_space (c : ascii) : bool :=
  let n := nat_of_ascii c in
  ((9 <=? n) && (n <=? 13) || (28 <=? n) && (n <=? 32) ||
   (n =? 133) || (n =? 160))%nat.

Definition digit_of (c : ascii) : option Z :=
  let n := nat_of_ascii c in
  if ((48 <=? n) && (n <=? 57))%nat then Some (Z.of_nat n - 48) else None.

Fixpoint lstrip (cs : list ascii) : list ascii :=
  match cs with
  | c :: cs' => if is_space c then lstrip cs' else cs
  | [] => []
  end.

Definition strip (cs : list ascii) : list ascii :=
  rev (lstrip (rev (lstrip cs))).

(** The digits of a base-10 literal: at least one digit, and single
    underscores only between two digits.  [prev] says that the character
    before was a digit. *)
Fixpoint parse_digits (acc : Z) (prev : bool) (cs : list ascii) : option Z :=
  match cs with
  | [] => if prev then Some acc else None
  | c :: cs' =>
      if Ascii.eqb c "_"
      then (if prev then parse_digits acc false cs' else None)
      else match digit_of c with
           | Some d => parse_digits (10 * acc + d) true cs'
           | None => None
           end
  end.

(** [sys.int_max_str_digits] at its default: since CPython 3.11 (and the
    security releases of 3.7 to 3.10) [int(str)] refuses a literal with
    more decimal digits than this. *)
Definition int_max_str_digits : nat := 4300.

Definition isdigit (c : ascii) : bool :=
  match digit_of c with Some _ => true | None => false end.

(** A base-10 literal after its sign: its value, unless it is malformed or
    has more than [int_max_str_digits] digits (underscores do not count). *)
Definition literal (cs : list ascii) : option Z :=
  if (int_max_str_digits <? List.length (List.filter isdigit cs))%nat
  then None
  else parse_digits 0 false cs.

(** [int(s)] for a [str]: white space around an optionally signed base-10
    literal of at most [int_max_str_digits] digits; anything else raises
    [ValueError]. *)
Definition int_of_str (s : string) : outcome Z :=
  let body :=
    match strip (list_ascii_of_string s) with
    | c :: cs' =>
        if Ascii.eqb c "-" then Z.opp <$> literal cs'
        else if Ascii.eqb c "+" then literal cs'
        else literal (c :: cs')
    | [] => None
    end in
  match body with
  | Some n => Ret n
  | None => Raise ValueError
  end.

(** [str(n)] for an [int] of at most [int_max_str_digits] digits, which
    covers what the script formats: an attempt number, and a percentage
    that comes from a finite binary64 float. *)
Definition str_of_int (n : Z) : string :=
  NilZero.string_of_int (Z.to_int n).

(** The exact value of a finite float as a fraction [num / den] with
    [0 < den]; [None] for NaN and the infinities. *)
Definition float_ratio (x : float) : option (Z * Z) :=
  match Prim2SF x with
  | S754_zero _ => Some (0, 1)
  | S754_finite s m e =>
      let n := if s then Z.neg m else Z.pos m in
      if 0 <=? e then Some (n * 2 ^ e, 1) else Some (n, 2 ^ (- e))
  | S754_infinity _ => None
  | S754_nan => None
  end.

(** [int(x)] for a [float]: the value truncated towards zero;
    [ValueError] for NaN and [OverflowError] for an infinity. *)
Definition int_of_float (x : float) : outcome Z :=
  match float_ratio x with
  | Some (num, den) => Ret (Z.quot num den)
  | None => if PrimFloat.eqb x x then Raise OverflowError else Raise ValueError
  end.

(** [l[i]] on a list: negative indices count from the end, an index out of
    range raises [IndexError]. *)
Definition getitem {A} (l : list A) (i : Z) : outcome A :=
  let n := Z.of_nat (List.length l) in
  let j := if i <? 0 then i + n else i in
  if (0 <=? j) && (j <? n)
  then match l !! Z.to_nat j with Some a => Ret a | None => Raise IndexError end
  else Raise IndexError.

(** [genericpath._splitext(p, sep, altsep, extsep)]: the extension starts at
    the last dot of the last path component, unless that component has
    only dots before it. *)
Fixpoint has_non_dot (extsep : ascii) (p : string) (from : nat) (n : nat) : bool :=
  match n with
  | O => false
  | S n' =>
      match String.get from p with
      | Some c => if Ascii.eqb c extsep then has_non_dot extsep p (S from) n' else true
      | None => true
      end
  end.

Definition _splitext (p : string) (sep : ascii) (altsep : option ascii)
    (extsep : ascii) : string * string :=
  let sepIndex := rfind sep p in
  let sepIndex :=
    match altsep with
    | Some a => Z.max sepIndex (rfind a p)
    | None => sepIndex
    end in
  let dotIndex := rfind extsep p in
  if (sepIndex <? dotIndex) &&
     has_non_dot extsep p (Z.to_nat (sepIndex + 1)) (Z.to_nat (dotIndex - (sepIndex + 1)))
  then (slice_to (Z.to_nat dotIndex) p, slice_from (Z.to_nat dotIndex) p)
  else (p, EmptyString).

End Py.

(** ** numpy's [int64] *)

(** The entries of [xyxy] after [astype(int)] are [int64] scalars, and so
    is every difference of one of them and a Python [int]: the result
    wraps around modulo [2^64]. *)
Module Np.

Definition int64_min : Z := - 2 ^ 63.
Definition int64_max : Z := 2 ^ 63 - 1.

Definition wrap64 (z : Z) : Z := (z + 2 ^ 63) `mod` 2 ^ 64 - 2 ^ 63.

(** [a - b] for an [int64] scalar [a] *)
Definition sub64 (a b : Z) : Z := wrap64 (a - b).

End Np.

(** ** The trace of a run *)

Definition point : Type := Z * Z.
Definition bgr : Type := Z * Z * Z.

(** One call into a collaborator (or a [print]).  [ESerialWrite] records
    whether the port accepted the bytes; [ECallSendSignal] marks the entry
    into [send_signal_to_arduino]; [EFps] is the throughput line, whose
    text depends on the clock. *)
Inductive event :=
| EPrint (msg : string)
| ESleep (seconds : Z)
| ESerialOpen (port : string) (baudrate timeout : Z)
| ESerialWrite (data : string) (ok : bool)
| ESerialClose
| ELoadModel (path : string)
| ERecorderOpen (file codec : string) (fps : Z) (size : Z * Z)
| ERecorderWrite
| ERecorderRelease
| ECapOpen (src : string + Z)
| ECapSet (prop value : Z)
| ECapRead (ret : bool)
| ECapRelease
| EImread (path : string)
| EResize (size : Z * Z)
| EInfer
| ERectangle (pt1 pt2 : point) (color : bgr) (thickness : Z)
| EPutText (text : string) (org : point) (color : bgr)
| EImshow
| EWaitKey (delay : Z)
| EFps
| EDestroyAllWindows
| ECallSendSignal (signal : string).

(** A computation of the script: the events it performed, in order, and
    how it ended. *)
Definition M (A : Type) : Type := list event * outcome A.

#[global] Instance M_ret : MRet M := λ A a, ([], Ret a).

#[global] Instance M_bind : MBind M := λ A B f m,
  match m.2 with
  | Ret a => (m.1 ++ (f a).1, (f a).2)
  | Break => (m.1, Break)
  | Exit c => (m.1, Exit c)
  | Raise e => (m.1, Raise e)
  end.

Definition emit (e : event) : M unit := ([e], Ret tt).
Definition print (msg : string) : M unit := emit (EPrint msg).
Definition sys_exit {A} (code : Z) : M A := ([], Exit code).
Definition break {A} : M A := ([], Break).
Definition lift {A} (o : outcome A) : M A := ([], o).

(** [try: body except Exception as e: handler e].  Every [exn] of the model
    is an [Exception]; [sys.exit] and [break] pass through. *)
Definition try_except {A} (body : M A) (handler : exn → M A) : M A :=
  match body.2 with
  | Raise e => (body.1 ++ (handler e).1, (handler e).2)
  | _ => body
  end.

(** ** The collaborators *)

(** The serial port object: pyserial's [is_open]. *)
Record serial := { is_open : bool }.

(** What the script reads from the machine it runs on. [names] is
    [model.names] of the loaded detector; [nt] chooses [ntpath] over
    [posixpath] for [os.path]. *)
Record world := {
  serial_available : bool;
  nt : bool;
  path_exists : string → bool;
  path_isdir : string → bool;
  path_isfile : string → bool;
  glob : string → list string;
  names : gmap Z string
}.

(** The parsed command line. [arg_thresh] is [float(args.thresh)]. *)
Record args := {
  arg_model : string;
  arg_source : string;
  arg_thresh : float;
  arg_resolution : option string;
  arg_record : bool
}.

(** One raw detection: [xyxy] after [astype(int)] (four [int64] values),
    [int(cls)] and [conf]. *)
Record detection := {
  xmin : Z; ymin : Z; xmax : Z; ymax : Z;
  classidx : Z;
  conf : float
}.

(** What the collaborators answer during one loop iteration: whether
    [cap.read()] delivered a frame, the detector's boxes, the result of the
    [k]-th [arduino.write] ([None] is success), and the key [waitKey]
    returns. *)
Record tick := {
  cap_ret : bool;
  boxes : list detection;
  write_result : nat → option exn;
  key : Z
}.

(** ** Start-up *)

(** [serial.Serial(port, baudrate, timeout=timeout)] *)
Definition Serial (available : bool) (port : string) (baudrate timeout : Z)
    : M serial :=
  if available
  then emit (ESerialOpen port baudrate timeout);; mret {| is_open := true |}
  else lift (Raise SerialException).

(** Lines 13-21.  The text of the caught exception is not modelled. *)
Definition init_serial (available : bool) : M (option serial) :=
  let port := "COM11"%string in
  try_except
    (ser ← Serial available port 9600 1;
     emit (ESleep 2);;
     print "Connected to Arduino";;
     mret (Some ser))
    (λ e, print ("Warning: Could not connect to Arduino on " +:+ port +:+ ".");;
          mret None).

Inductive source_kind := folder | image | video | usb.

Definition img_ext_list : list string := [".jpg"; ".jpeg"; ".png"; ".bmp"]%string.
Definition vid_ext_list : list string := [".avi"; ".mov"; ".mp4"; ".mkv"; ".wmv"]%string.

(** [x in l] for a list of strings *)
Definition str_in (x : string) (l : list string) : bool := existsb (String.eqb x) l.

(** [os.path.splitext] *)
Definition splitext (w : world) (p : string) : string * string :=
  if nt w then Py._splitext p "\" (Some "/"%char) "."
  else Py._splitext p "/" None ".".

(** Lines 55-65: [source_type] and, for a camera, [usb_idx]. *)
Definition determine_input_type (w : world) (img_source : string)
    : M (source_kind * option Z) :=
  if path_isdir w img_source then mret (folder, None)
  else if path_isfile w img_source then
    let ext := (splitext w img_source).2 in
    if str_in ext img_ext_list then mret (image, None)
    else if str_in ext vid_ext_list then mret (video, None)
    else sys_exit 0
  else if Py.contains "usb" img_source then
    usb_idx ← lift (Py.int_of_str (Py.slice_from 3 img_source));
    mret (usb, Some usb_idx)
  else
    print ("Invalid input: " +:+ img_source);;
    sys_exit 0.

(** [if s:] for an optional string: [None] and [''] are false. *)
Definition truthy (s : option string) : bool :=
  match s with
  | Some (String _ _) => true
  | _ => false
  end.

(** [if x:] for a name bound to [None] or to an object. *)
Definition bound {A} (x : option A) : bool :=
  match x with
  | Some _ => true
  | None => false
  end.

(** Line 71: [map(int, user_res.replace('×', 'x').split('x'))] unpacked
    into two names. *)
Definition parse_resolution (user_res : string) : M (Z * Z) :=
  match Py.split_on "x" (Py.replace_char (ascii_of_nat 215) "x" user_res) with
  | [a; b] =>
      resW ← lift (Py.int_of_str a);
      resH ← lift (Py.int_of_str b);
      mret (resW, resH)
  | a :: _ => _ ← lift (Py.int_of_str a); lift (Raise ValueError)
  | [] => lift (Raise ValueError)
  end.

(** The module's global names once start-up is over. [res] is
    [(resW, resH)], bound only when a resolution was given; [imgs_list] is
    bound only for an image or folder source and [usb_idx] only for a
    camera; [cap] is [None] or the capture object. *)
Record globals := {
  arduino : option serial;
  min_thresh : float;
  labels : gmap Z string;
  source_type : source_kind;
  usb_idx : option Z;
  resize : bool;
  res : option (Z * Z);
  record : bool;
  imgs_list : list string;
  cap : option (string + Z)
}.

Definition is_cap_source (k : source_kind) : bool :=
  match k with video | usb => true | _ => false end.

(** Lines 43-45. *)
Definition check_model (w : world) (model_path : string) : M unit :=
  if path_exists w model_path then mret tt
  else print "ERROR: Model path is invalid or not found.";; sys_exit 0.

(** Lines 68-71: [(resW, resH)] when a resolution was given. *)
Definition handle_resolution (user_res : option string) : M (option (Z * Z)) :=
  if truthy user_res
  then r ← parse_resolution (default EmptyString user_res); mret (Some r)
  else mret None.

(** Lines 74-81. *)
Definition recording_setup (record : bool) (source_type : source_kind)
    (user_res : option string) (res : option (Z * Z)) : M unit :=
  if record then
    (if is_cap_source source_type then mret tt
     else print "Recording only works for video or camera sources.";; sys_exit 0);;
    (if truthy user_res then mret tt
     else print "Specify resolution for recording.";; sys_exit 0);;
    emit (ERecorderOpen "demo1.avi" "MJPG" 30 (default (0, 0) res))
  else mret tt.

(** Lines 84-93: [imgs_list] and [cap]. *)
Definition open_source (w : world) (source_type : source_kind)
    (usb_idx : option Z) (img_source : string) (user_res : option string)
    (res : option (Z * Z)) : M (list string * option (string + Z)) :=
  match source_type with
  | image => mret ([img_source], None)
  | folder =>
      mret (List.filter (λ file, str_in (splitext w file).2 img_ext_list)
                        (glob w (img_source +:+ "/*")), None)
  | video | usb =>
      let src := match source_type, usb_idx with
                 | usb, Some i => inr i
                 | _, _ => inl img_source
                 end in
      emit (ECapOpen src);;
      (match truthy user_res, res with
       | true, Some (resW, resH) => emit (ECapSet 3 resW);; emit (ECapSet 4 resH)
       | _, _ => mret tt
       end);;
      mret ([], Some src)
  end.

(** Lines 23-93. *)
Definition startup (w : world) (a : args) : M globals :=
  arduino ← init_serial (serial_available w);
  let model_path := arg_model a in
  let img_source := arg_source a in
  let user_res := arg_resolution a in
  let record := arg_record a in
  check_model w model_path;;
  emit (ELoadModel model_path);;
  '(source_type, usb_idx) ← determine_input_type w img_source;
  res ← handle_resolution user_res;
  recording_setup record source_type user_res res;;
  '(imgs_list, cap) ← open_source w source_type usb_idx img_source user_res res;
  mret {| arduino := arduino; min_thresh := arg_thresh a; labels := names w;
          source_type := source_type; usb_idx := usb_idx;
          resize := truthy user_res; res := res; record := record;
          imgs_list := imgs_list; cap := cap |}.

(** ** Signalling *)

(** [arduino.write(signal.encode())]: the port takes the bytes or raises. *)
Definition arduino_write (result : option exn) (signal : string) : M unit :=
  match result with
  | None => emit (ESerialWrite signal true)
  | Some e => emit (ESerialWrite signal false);; lift (Raise e)
  end.

(** Lines 101-108, the [for attempt in range(retries)] loop from [attempt]
    on, with [n] rounds left.  The [try] block answers [true] when it
    reached its [return]. *)
Fixpoint send_attempts (wr : nat → option exn) (signal : string)
    (attempt n : nat) : M unit :=
  match n with
  | O => mret tt
  | S n' =>
      returned ←
        try_except (A := bool)
          (arduino_write (wr attempt) signal;;
           print ("Signal '" +:+ signal +:+ "' sent to Arduino.");;
           mret true)
          (λ e,
           print ("Error sending signal to Arduino (attempt " +:+
                  Py.str_of_int (Z.of_nat attempt + 1) +:+ ")");;
           emit (ESleep 1);;
           mret false);
      if returned : bool then mret tt else send_attempts wr signal (S attempt) n'
  end.

Definition connected (arduino : option serial) : bool :=
  match arduino with
  | Some ser => is_open ser
  | None => false
  end.

(** Lines 99-110. *)
Definition send_signal_to_arduino (arduino : option serial)
    (wr : nat → option exn) (signal : string) (retries : nat) : M unit :=
  emit (ECallSendSignal signal);;
  if connected arduino
  then send_attempts wr signal 0 retries
  else print "Arduino connection not available.".

(** ** Detection filtering and annotation *)

Definition bbox_colors : list bgr :=
  [(164, 120, 87); (68, 148, 228); (93, 97, 209); (178, 182, 133)].

(** [labels[classidx]] on the dict [model.names] *)
Definition lookup_label (labels : gmap Z string) (i : Z) : M string :=
  match labels !! i with
  | Some name => mret name
  | None => lift (Raise KeyError)
  end.

(** [bbox_colors[classidx % len(bbox_colors)]] *)
Definition bbox_color (i : Z) : outcome bgr :=
  Py.getitem bbox_colors (i `mod` Z.of_nat (List.length bbox_colors)).

(** The f-string of line 148. *)
Definition label_text (classname : string) (pct : Z) : string :=
  classname +:+ ": " +:+ Py.str_of_int pct +:+ "%".

(** The percentage as line 148 computes it: [int(conf*100)]. *)
Definition percentage (c : float) : outcome Z := Py.int_of_float (c * 100)%float.

(** Lines 139-152: the body of the [for i in range(len(detections))] loop;
    the result is the new value of [ambulance_detected]. *)
Definition process_detection (labels : gmap Z string) (min_thresh : float)
    (d : detection) (ambulance_detected : bool) : M bool :=
  classname ← lookup_label labels (classidx d);
  if PrimFloat.ltb min_thresh (conf d) then
    color ← lift (bbox_color (classidx d));
    emit (ERectangle (xmin d, ymin d) (xmax d, ymax d) color 2);;
    pct ← lift (percentage (conf d));
    emit (EPutText (label_text classname pct) (xmin d, Np.sub64 (ymin d) 7) color);;
    mret (if String.eqb (Py.lower classname) "ambulance"
          then true else ambulance_detected)
  else mret ambulance_detected.

(** Lines 138-152. *)
Fixpoint process_detections (labels : gmap Z string) (min_thresh : float)
    (ds : list detection) (ambulance_detected : bool) : M bool :=
  match ds with
  | [] => mret ambulance_detected
  | d :: ds' =>
      flag ← process_detection labels min_thresh d ambulance_detected;
      process_detections labels min_thresh ds' flag
  end.

(** ** The loop *)

Definition set_imgs_list (l : list string) (g : globals) : globals :=
  {| arduino := arduino g; min_thresh := min_thresh g; labels := labels g;
     source_type := source_type g; usb_idx := usb_idx g; resize := resize g;
     res := res g; record := record g; imgs_list := l; cap := cap g |}.

(** Lines 117-126: the next frame, [sys.exit(0)] when the image queue is
    empty, [break] when the capture has no frame. *)
Definition next_frame (g : globals) (tk : tick) : M globals :=
  match source_type g with
  | image | folder =>
      match imgs_list g with
      | [] => print "All images processed. Exiting.";; sys_exit 0
      | file :: rest => emit (EImread file);; mret (set_imgs_list rest g)
      end
  | video | usb =>
      if bound (cap g) then
        emit (ECapRead (cap_ret tk));;
        if cap_ret tk then mret g
        else print "End of video/camera stream.";; break
      else mret g
  end.

(** Lines 114-170: one pass through the body of [while True]. *)
Definition iteration (g : globals) (tk : tick) : M globals :=
  g ← next_frame g tk;
  (if resize g then emit (EResize (default (0, 0) (res g))) else mret tt);;
  emit EInfer;;
  ambulance_detected ←
    process_detections (labels g) (min_thresh g) (boxes tk) false;
  (if ambulance_detected : bool
   then send_signal_to_arduino (arduino g) (write_result tk) "A" 3
   else mret tt);;
  emit EImshow;;
  (if record g then emit ERecorderWrite else mret tt);;
  emit (EWaitKey 5);;
  (if (key tk =? 113) || (key tk =? 81) then break else mret tt);;
  emit EFps;;
  mret g.

(** How the loop stands after a finite script of ticks. *)
Inductive loop_end :=
| Broke (g : globals)
| Exited (code : Z)
| Raised (e : exn)
| Looping (g : globals).

(** Lines 113-170.  An iteration changes [imgs_list] only, which the
    clean-up block does not read, so [Broke] carries the globals the
    iteration started with. *)
Fixpoint loop (g : globals) (ticks : list tick) : list event * loop_end :=
  match ticks with
  | [] => ([], Looping g)
  | tk :: ticks' =>
      let r := iteration g tk in
      match r.2 with
      | Ret g' => let r' := loop g' ticks' in (r.1 ++ r'.1, r'.2)
      | Break => (r.1, Broke g)
      | Exit code => (r.1, Exited code)
      | Raise e => (r.1, Raised e)
      end
  end.

(** Lines 172-179. *)
Definition cleanup (g : globals) : M unit :=
  (if bound (cap g) then emit ECapRelease else mret tt);;
  (if record g then emit ERecorderRelease else mret tt);;
  emit EDestroyAllWindows;;
  (if bound (arduino g) then emit ESerialClose else mret tt).

(** The process after a finite script: still in the loop, or gone with an
    exit status (0 at the end of the file and for [sys.exit(0)], 1 for an
    uncaught exception). *)
Inductive ending :=
| Running
| ExitStatus (code : Z).

Definition status_of {A} (o : outcome A) : ending :=
  match o with
  | Ret _ => ExitStatus 0
  | Break => ExitStatus 1
  | Exit code => ExitStatus code
  | Raise _ => ExitStatus 1
  end.

(** The whole script. *)
Definition run (w : world) (a : args) (ticks : list tick) : list event * ending :=
  let s := startup w a in
  match s.2 with
  | Ret g =>
      let l := loop g ticks in
      match l.2 with
      | Broke g' => let c := cleanup g' in (s.1 ++ l.1 ++ c.1, status_of c.2)
      | Exited code => (s.1 ++ l.1, ExitStatus code)
      | Raised e => (s.1 ++ l.1, ExitStatus 1)
      | Looping _ => (s.1 ++ l.1, Running)
      end
  | o => (s.1, status_of o)
  end.

(** ** Observations on traces *)

Definition count (p : event → bool) (tr : list event) : nat :=
  List.length (List.filter p tr).

Definition is_write (e : event) : bool :=
  match e with ESerialWrite _ _ => true | _ => false end.
Definition is_write_ok (e : event) : bool :=
  match e with ESerialWrite _ true => true | _ => false end.
Definition is_sleep (e : event) : bool :=
  match e with ESleep _ => true | _ => false end.
Definition is_call (e : event) : bool :=
  match e with ECallSendSignal _ => true | _ => false end.
Definition is_serial_close (e : event) : bool :=
  match e with ESerialClose => true | _ => false end.
Definition is_destroy (e : event) : bool :=
  match e with EDestroyAllWindows => true | _ => false end.
Definition is_draw (e : event) : bool :=
  match e with ERectangle _ _ _ _ | EPutText _ _ _ => true | _ => false end.

(** The events of one refused write of the retry loop. *)
Definition failed_round (signal : string) (attempt : nat) : list event :=
  [ESerialWrite signal false;
   EPrint ("Error sending signal to Arduino (attempt " +:+
           Py.str_of_int (Z.of_nat attempt + 1) +:+ ")");
   ESleep 1].

(** The same tick with other answers of the serial port. *)
Definition set_write_result (wr : nat → option exn) (tk : tick) : tick :=
  {| cap_ret := cap_ret tk; boxes := boxes tk; write_result := wr; key := key tk |}.

(** ** Notions of the specification *)

(** A detection passes the threshold: [conf > min_thresh]. *)
Definition passes (min_thresh : float) (d : detection) : bool :=
  PrimFloat.ltb min_thresh (conf d).

(** What the script takes for granted about the detector: the class index
    of every detection has a name in [model.names], and a confidence that
    passes the threshold is small enough for [conf * 100] to be finite. *)
Definition well_formed (labels : gmap Z string) (min_thresh : float)
    (d : detection) : bool :=
  bound (labels !! classidx d) &&
  (negb (passes min_thresh d) || bound (Py.float_ratio (conf d * 100)%float)).

(** The boxes of the rectangles of a trace, and the label texts with their
    origins, in drawing order. *)
Definition rectangles (tr : list event) : list (point * point) :=
  omap (λ e, match e with ERectangle p q _ _ => Some (p, q) | _ => None end) tr.

Definition texts (tr : list event) : list (string * point) :=
  omap (λ e, match e with EPutText t o _ => Some (t, o) | _ => None end) tr.

Definition box_of (d : detection) : point * point :=
  ((xmin d, ymin d), (xmax d, ymax d)).

(** Equality of strings up to the case of the letters A..Z. *)
Definition fold_case (c : ascii) : ascii :=
  let n := nat_of_ascii c in
  if ((65 <=? n) && (n <=? 90))%nat then ascii_of_nat (n + 32) else c.

Fixpoint same_ignoring_case (a b : string) : bool :=
  match a, b with
  | EmptyString, EmptyString => true
  | String x a', String y b' =>
      Ascii.eqb (fold_case x) (fold_case y) && same_ignoring_case a' b'
  | _, _ => false
  end.

(** The detection is of the target class. *)
Definition is_target (labels : gmap Z string) (d : detection) : bool :=
  match labels !! classidx d with
  | Some name => same_ignoring_case name "ambulance"
  | None => false
  end.

(** The integer nearest to [num / den] for [0 < den], a tie going up. *)
Definition round_nearest (num den : Z) : Z := (2 * num + den) `div` (2 * den).

(** The percentage as the specification words it: [conf * 100] rounded to
    the nearest integer. *)
Definition rounded_percentage (c : float) : option Z :=
  match Py.float_ratio (c * 100)%float with
  | Some (num, den) => Some (round_nearest num den)
  | None => None
  end.

(** The 256 characters, and the letters of the target class name. *)
Definition all_ascii : list ascii := List.map ascii_of_nat (seq 0 256).

(** The two overlay calls for a detection that passes the threshold. *)
Definition overlay (labels : gmap Z string) (d : detection) : list event :=
  match labels !! classidx d, bbox_color (classidx d),
        Py.float_ratio (conf d * 100)%float with
  | Some name, Ret color, Some (num, den) =>
      [ERectangle (xmin d, ymin d) (xmax d, ymax d) color 2;
       EPutText (label_text name (Z.quot num den)) (xmin d, Np.sub64 (ymin d) 7)
                color]
  | _, _, _ => []
  end.

(** Line 151 on the name of the detection's class. *)
Definition lower_match (labels : gmap Z string) (d : detection) : bool :=
  match labels !! classidx d with
  | Some name => String.eqb (Py.lower name) "ambulance"
  | None => false
  end.

(** A character below 128 that is no capital letter. *)
Definition plain (x : ascii) : bool :=
  let n := nat_of_ascii x in
  ((n <? 128) && negb ((65 <=? n) && (n <=? 90)))%nat.

(** A trace holds no call of [send_signal_to_arduino], or exactly one, with
    the signal 'A' and no overlay drawn after it. *)
Definition one_call_at_most (tr : list event) : Prop :=
  count is_call tr = 0%nat ∨
  ∃ pre post,
    tr = pre ++ ECallSendSignal "A" :: post ∧
    count is_call pre = 0%nat ∧ count is_call post = 0%nat ∧
    count is_draw post = 0%nat.

(** A camera token as the specification describes it: [usb] followed by
    one or more decimal digits; the result is the number the digits spell. *)
Definition is_digit (c : ascii) : bool := bound (Py.digit_of c).

Definition digits_value (cs : list ascii) : Z :=
  fold_left (λ acc c, 10 * acc + default 0 (Py.digit_of c)) cs 0.


(** The character [x] does not occur in [s]. *)
Definition no_char (x : ascii) (s : string) : bool :=
  forallb (λ c, negb (Ascii.eqb c x)) (list_ascii_of_string s).

(** A file name [...c.e] whose last dot is followed by an extension [e]
    without dots and separators, and preceded by a character [c] that is
    neither a dot nor a separator. *)
Definition simple_name (c : ascii) (e : string) : bool :=
  negb (Ascii.eqb c ".") && negb (Ascii.eqb c "/") && negb (Ascii.eqb c "\") &&
  no_char "." e && no_char "/" e && no_char "\" e.


(** The events that open or release a resource. *)
Definition is_resource (e : event) : bool :=
  match e with
  | ESerialOpen _ _ _ | ESerialClose | ECapOpen _ | ECapRelease
  | ERecorderOpen _ _ _ _ | ERecorderRelease | EDestroyAllWindows => true
  | _ => false
  end.

(** The resource events of a trace, in order. *)
Definition resources (tr : list event) : list event := List.filter is_resource tr.

(** What start-up opened, read off the globals: the serial port, the
    recorder, the capture. *)
Definition opened (g : globals) : list event :=
  (if bound (arduino g) then [ESerialOpen "COM11" 9600 1] else []) ++
  (if record g
   then [ERecorderOpen "demo1.avi" "MJPG" 30 (default (0, 0) (res g))] else []) ++
  (match cap g with Some src => [ECapOpen src] | None => [] end).

(** One release for each of them, and the windows. *)
Definition released (g : globals) : list event :=
  (if bound (cap g) then [ECapRelease] else []) ++
  (if record g then [ERecorderRelease] else []) ++
  [EDestroyAllWindows] ++
  (if bound (arduino g) then [ESerialClose] else []).

(** ** Example inputs *)

Definition example_labels : gmap Z string :=
  <[0 := "car"%string]> (<[1 := "Ambulance"%string]> (<[2 := "bus"%string]> ∅)).

Definition example_box (c : Z) (f : float) : detection :=
  {| xmin := 10; ymin := 20; xmax := 110; ymax := 220; classidx := c; conf := f |}.

(** A machine with a detector file, a folder of three files, an image, a
    video, a text file and a directory whose name looks like a camera. *)
Definition example_world : world :=
  {| serial_available := true;
     nt := false;
     path_exists := λ p, String.eqb p "best.pt";
     path_isdir := λ p, String.eqb p "imgs" || String.eqb p "usb0";
     path_isfile := λ p, String.eqb p "road.jpg" || String.eqb p "road.mp4" ||
                         String.eqb p "notes.txt";
     glob := λ pat, if String.eqb pat "imgs/*"
                    then ["imgs/a.jpg"; "imgs/b.txt"; "imgs/c.png"]%string
                    else [];
     names := example_labels |}.

(** A machine whose folder holds an image and a directory whose name ends
    in [.png], as [glob] reports them. *)
Definition example_world_subdir : world :=
  {| serial_available := true;
     nt := false;
     path_exists := λ p, String.eqb p "best.pt";
     path_isdir := λ p, String.eqb p "imgs" || String.eqb p "imgs/sub.png";
     path_isfile := λ p, String.eqb p "imgs/a.jpg";
     glob := λ pat, if String.eqb pat "imgs/*"
                    then ["imgs/a.jpg"; "imgs/sub.png"]%string
                    else [];
     names := example_labels |}.

Definition example_args (model source : string) (resolution : option string)
    (record : bool) : args :=
  {| arg_model := model; arg_source := source; arg_thresh := 0.5%float;
     arg_resolution := resolution; arg_record := record |}.

(** A tick with a frame, the given boxes, a serial port that refuses the
    first [refusals] writes, and the given key. *)
Definition example_tick (ret : bool) (ds : list detection) (refusals : nat)
    (k : Z) : tick :=
  {| cap_ret := ret; boxes := ds;
     write_result := λ i, if (i <? refusals)%nat then Some SerialException else None;
     key := k |}.

Definition example_globals (kind : source_kind) (queue : list string) : globals :=
  {| arduino := Some {| is_open := true |}; min_thresh := 0.5%float;
     labels := example_labels; source_type := kind; usb_idx := None;
     resize := false; res := None; record := false; imgs_list := queue;
     cap := None |}.

(** ** Further notions *)

(** Line 165: the key is [q] or [Q]. *)
Definition quit_key (k : Z) : bool := (k =? 113) || (k =? 81).

Definition is_infer (e : event) : bool :=
  match e with EInfer => true | _ => false end.
Definition is_imread (e : event) : bool :=
  match e with EImread _ => true | _ => false end.
Definition is_imshow (e : event) : bool :=
  match e with EImshow => true | _ => false end.
Definition is_recorder_write (e : event) : bool :=
  match e with ERecorderWrite => true | _ => false end.
Definition is_resize (e : event) : bool :=
  match e with EResize _ => true | _ => false end.

(** The events of an iteration before the detection loop, once the frame
    is there, and after the signalling. *)
Definition before_detections (g : globals) : list event :=
  (if resize g then [EResize (default (0, 0) (res g))] else []) ++ [EInfer].

Definition after_signal (g : globals) (tk : tick) : list event :=
  [EImshow] ++ (if record g then [ERecorderWrite] else []) ++ [EWaitKey 5] ++
  (if quit_key (key tk) then [] else [EFps]).

Definition signalling (g : globals) (tk : tick) (flag : bool) : list event :=
  if flag then (send_signal_to_arduino (arduino g) (write_result tk) "A" 3).1
  else [].

(** What the loop takes for granted about the globals: a capture exists
    exactly for a video or camera source, [(resW, resH)] is bound exactly
    when frames are resized, recording goes with a video or camera source
    and a resolution, [usb_idx] is bound exactly for a camera, and a video
    or camera source has no image queue. *)
Definition globals_ok (g : globals) : bool :=
  Bool.eqb (bound (cap g)) (is_cap_source (source_type g)) &&
  Bool.eqb (resize g) (bound (res g)) &&
  implb (record g) (is_cap_source (source_type g) && resize g) &&
  Bool.eqb (bound (usb_idx g))
           (match source_type g with usb => true | _ => false end) &&
  implb (is_cap_source (source_type g))
        (match imgs_list g with [] => true | _ => false end).

(** Lines 128-170: the body of the loop once the frame is there. *)
Definition frame_body (g : globals) (tk : tick) : M globals :=
  (if resize g then emit (EResize (default (0, 0) (res g))) else mret tt);;
  emit EInfer;;
  ambulance_detected ←
    process_detections (labels g) (min_thresh g) (boxes tk) false;
  (if ambulance_detected : bool
   then send_signal_to_arduino (arduino g) (write_result tk) "A" 3
   else mret tt);;
  emit EImshow;;
  (if record g then emit ERecorderWrite else mret tt);;
  emit (EWaitKey 5);;
  (if (key tk =? 113) || (key tk =? 81) then break else mret tt);;
  emit EFps;;
  mret g.

(** The same globals with another serial port, and the same machine with
    or without an Arduino that answers. *)
Definition with_arduino (x : option serial) (g : globals) : globals :=
  {| arduino := x; min_thresh := min_thresh g; labels := labels g;
     source_type := source_type g; usb_idx := usb_idx g; resize := resize g;
     res := res g; record := record g; imgs_list := imgs_list g; cap := cap g |}.

Definition set_serial_available (b : bool) (w : world) : world :=
  {| serial_available := b; nt := nt w; path_exists := path_exists w;
     path_isdir := path_isdir w; path_isfile := path_isfile w; glob := glob w;
     names := names w |}.

Definition map_outcome {A B} (f : A → B) (o : outcome A) : outcome B :=
  match o with
  | Ret a => Ret (f a)
  | Break => Break
  | Exit c => Exit c
  | Raise e => Raise e
  end.

Definition map_loop_end (f : globals → globals) (l : loop_end) : loop_end :=
  match l with
  | Broke g => Broke (f g)
  | Exited c => Exited c
  | Raised e => Raised e
  | Looping g => Looping (f g)
  end.

(** Writes to the serial port and the waiting that goes with them. *)
Definition is_serial_traffic (e : event) : bool := is_write e || is_sleep e.

(** The events of [send_signal_to_arduino]. *)
Definition is_signal_event (e : event) : bool :=
  match e with
  | ECallSendSignal _ | ESerialWrite _ _ | EPrint _ | ESleep _ => true
  | _ => false
  end.

(** The events that handle a frame: reading, resizing, inference, display,
    recording. *)
Definition is_frame_event (e : event) : bool :=
  match e with
  | EImread _ | ECapRead _ | EResize _ | EInfer | EImshow | ERecorderWrite => true
  | _ => false
  end.

(** A tick that lets an iteration fall through once its frame is there: no
    quit key, and boxes as the script expects them from the detector. *)
Definition clean (g : globals) (tk : tick) : bool :=
  negb (quit_key (key tk)) &&
  forallb (well_formed (labels g) (min_thresh g)) (boxes tk).

(** A read of the capture that delivered a frame. *)
Definition is_capread_ok (e : event) : bool :=
  match e with ECapRead true => true | _ => false end.

(** The events of start-up. *)
Definition is_startup_event (e : event) : bool :=
  match e with
  | EPrint _ | ESleep _ | ESerialOpen _ _ _ | ELoadModel _
  | ERecorderOpen _ _ _ _ | ECapOpen _ | ECapSet _ _ => true
  | _ => false
  end.

(** The files that [cv2.imread] was called on, in order. *)
Definition files_read (tr : list event) : list string :=
  omap (λ e, match e with EImread p => Some p | _ => None end) tr.

(** What [init_serial] leaves open: the port, when it could be opened. *)
Definition port_opened (w : world) : list event :=
  if serial_available w then [ESerialOpen "COM11" 9600 1] else [].

(** The refused writes before the first accepted one among the attempts
    [attempt], [attempt + 1], ... of a port that answers [wr], at most [n]
    of them. *)
Fixpoint refusals (wr : nat → option exn) (attempt n : nat) : nat :=
  match n with
  | O => O
  | S n' =>
      match wr attempt with
      | Some _ => S (refusals wr (S attempt) n')
      | None => O
      end
  end.

(** The events of an accepted write. *)
Definition accepted_round (signal : string) : list event :=
  [ESerialWrite signal true;
   EPrint ("Signal '" +:+ signal +:+ "' sent to Arduino.")].

(** A write of anything but the signal 'A'. *)
Definition is_other_write (e : event) : bool :=
  match e with
  | ESerialWrite data _ => negb (String.eqb data "A")
  | _ => false
  end.

(** What a trace shows of the traffic on the serial port: only 'A' is
    written, at most three times for each call of
    [send_signal_to_arduino] and at most once with success, and there are
    no more calls than inferences. *)
Definition traffic_ok (tr : list event) : Prop :=
  count is_other_write tr = 0%nat ∧
  (count is_write tr ≤ 3 * count is_call tr)%nat ∧
  (count is_write_ok tr ≤ count is_call tr)%nat ∧
  (count is_call tr ≤ count is_infer tr)%nat.

(** * Properties *)

(** ** The trace monad *)

Lemma bind_Ret {A B} (ev : list event) (a : A) (f : A → M B) :
  (ev, Ret a) ≫= f = (ev ++ (f a).1, (f a).2).
Proof. reflexivity. Qed.

Lemma bind_mret {A B} (a : A) (f : A → M B) :
  (mret a ≫= f) = ((f a).1, (f a).2).
Proof. reflexivity. Qed.

Lemma bind_emit {B} (e : event) (k : M B) :
  (emit e;; k) = (e :: k.1, k.2).
Proof. reflexivity. Qed.

Lemma count_app p (l1 l2 : list event) :
  count p (l1 ++ l2) = (count p l1 + count p l2)%nat.
Proof. unfold count. by rewrite List.filter_app, length_app. Qed.

Lemma count_cons p e (l : list event) :
  count p (e :: l) = ((if p e then 1 else 0) + count p l)%nat.
Proof. unfold count. simpl. by destruct (p e). Qed.

Ltac count_simpl := repeat (rewrite count_app || rewrite count_cons).

(** ** Signalling *)

Lemma send_attempts_fail wr signal attempt n e :
  wr attempt = Some e →
  send_attempts wr signal attempt (S n) =
    (failed_round signal attempt ++ (send_attempts wr signal (S attempt) n).1,
     (send_attempts wr signal (S attempt) n).2).
Proof.
  intros H. simpl. unfold arduino_write. rewrite H. reflexivity.
Qed.

Lemma send_attempts_ok wr signal attempt n :
  wr attempt = None →
  send_attempts wr signal attempt (S n) =
    ([ESerialWrite signal true;
      EPrint ("Signal '" +:+ signal +:+ "' sent to Arduino.")], Ret tt).
Proof.
  intros H. simpl. unfold arduino_write. rewrite H. reflexivity.
Qed.

(** The retry loop always falls through: the handler swallows every
    exception of a write. *)
Lemma send_attempts_returns wr signal n : ∀ attempt,
  (send_attempts wr signal attempt n).2 = Ret tt.
Proof.
  induction n as [|n IH]; intros attempt; [reflexivity|].
  destruct (wr attempt) as [e|] eqn:H.
  - rewrite (send_attempts_fail _ _ _ _ _ H). apply IH.
  - by rewrite (send_attempts_ok _ _ _ _ H).
Qed.

Lemma send_attempts_writes wr signal n : ∀ attempt,
  (count is_write (send_attempts wr signal attempt n).1 ≤ n)%nat.
Proof.
  induction n as [|n IH]; intros attempt; [simpl; unfold count; simpl; lia|].
  destruct (wr attempt) as [e|] eqn:H.
  - rewrite (send_attempts_fail _ _ _ _ _ H). simpl.
    rewrite !count_cons. simpl. specialize (IH (S attempt)). lia.
  - rewrite (send_attempts_ok _ _ _ _ H). unfold count. simpl. lia.
Qed.

(** Whatever follows an accepted write holds no further write: it is the
    confirmation line alone. *)
Lemma send_attempts_stop wr signal n : ∀ attempt pre post data,
  (send_attempts wr signal attempt n).1 = pre ++ ESerialWrite data true :: post →
  post = [EPrint ("Signal '" +:+ signal +:+ "' sent to Arduino.")].
Proof.
  induction n as [|n IH]; intros attempt pre post data.
  - simpl. by destruct pre.
  - destruct (wr attempt) as [e|] eqn:H.
    + rewrite (send_attempts_fail _ _ _ _ _ H). simpl. unfold failed_round.
      destruct pre as [|e1 [|e2 [|e3 pre]]]; simpl; intros Heq;
        try discriminate.
      injection Heq as _ _ _ Heq. by eapply IH.
    + rewrite (send_attempts_ok _ _ _ _ H). simpl.
      destruct pre as [|e1 [|e2 pre]]; simpl; intros Heq;
        try discriminate.
      * by injection Heq as _ <-.
      * injection Heq as _ _ Heq. by destruct pre.
Qed.

(** A refused write is followed by its diagnostic and a delay of one
    second. *)
Lemma send_attempts_delay wr signal n : ∀ attempt pre post data,
  (send_attempts wr signal attempt n).1 = pre ++ ESerialWrite data false :: post →
  ∃ msg post', post = EPrint msg :: ESleep 1 :: post'.
Proof.
  induction n as [|n IH]; intros attempt pre post data.
  - simpl. by destruct pre.
  - destruct (wr attempt) as [e|] eqn:H.
    + rewrite (send_attempts_fail _ _ _ _ _ H). simpl. unfold failed_round.
      destruct pre as [|e1 [|e2 [|e3 pre]]]; simpl; intros Heq;
        try discriminate.
      * injection Heq as _ <-. by eexists _, _.
      * injection Heq as _ _ _ Heq. by eapply IH.
    + rewrite (send_attempts_ok _ _ _ _ H). simpl.
      destruct pre as [|e1 [|e2 pre]]; simpl; intros Heq;
        try discriminate.
      injection Heq as _ _ Heq. by destruct pre.
Qed.

(** The delays are the ones after refused writes, and each is one second. *)
Lemma send_attempts_sleeps wr signal n : ∀ attempt,
  count is_sleep (send_attempts wr signal attempt n).1 =
    (count is_write (send_attempts wr signal attempt n).1 -
     count is_write_ok (send_attempts wr signal attempt n).1)%nat ∧
  (count is_write_ok (send_attempts wr signal attempt n).1 ≤ 1)%nat.
Proof.
  induction n as [|n IH]; intros attempt; [unfold count; simpl; lia|].
  destruct (wr attempt) as [e|] eqn:H.
  - rewrite (send_attempts_fail _ _ _ _ _ H). simpl.
    rewrite !count_cons. simpl. destruct (IH (S attempt)) as [-> ?].
    pose proof (send_attempts_writes wr signal n (S attempt)). split; [|lia].
    assert (count is_write_ok (send_attempts wr signal (S attempt) n).1
            ≤ count is_write (send_attempts wr signal (S attempt) n).1)%nat; [|lia].
    unfold count. generalize (send_attempts wr signal (S attempt) n).1.
    induction l as [|[] l IHl]; simpl; try lia. destruct ok; simpl; lia.
  - rewrite (send_attempts_ok _ _ _ _ H). unfold count. simpl. lia.
Qed.

Arguments send_attempts : simpl never.

Lemma send_signal_returns arduino wr signal retries :
  (send_signal_to_arduino arduino wr signal retries).2 = Ret tt.
Proof.
  unfold send_signal_to_arduino. rewrite bind_emit. simpl.
  destruct (connected arduino); [apply send_attempts_returns | reflexivity].
Qed.

Lemma send_signal_trace_open arduino wr signal retries :
  connected arduino = true →
  (send_signal_to_arduino arduino wr signal retries).1 =
    ECallSendSignal signal :: (send_attempts wr signal 0 retries).1.
Proof.
  intros H. unfold send_signal_to_arduino. rewrite bind_emit. simpl.
  by rewrite H.
Qed.

(** How a bind ends depends only on how its parts end. *)
Lemma bind_outcome {A B} (m m' : M A) (f f' : A → M B) :
  m.2 = m'.2 → (∀ a, (f a).2 = (f' a).2) → (m ≫= f).2 = (m' ≫= f').2.
Proof.
  intros Hm Hf. unfold mbind, M_bind. rewrite <- Hm.
  destruct (m.2); simpl; auto.
Qed.

(** What the serial port answers has no influence on how an iteration
    ends. *)
Lemma iteration_outcome_writes g tk wr :
  (iteration g (set_write_result wr tk)).2 = (iteration g tk).2.
Proof.
  unfold iteration. apply bind_outcome; [reflexivity|]. intros g1.
  apply bind_outcome; [reflexivity|]. intros _.
  apply bind_outcome; [reflexivity|]. intros _.
  apply bind_outcome; [reflexivity|]. intros flag.
  apply bind_outcome; [|reflexivity].
  destruct flag; [|reflexivity].
  by rewrite !send_signal_returns.
Qed.

(** C3: [send_signal_to_arduino('A')] never raises.  With an open port it
    writes at most three times, writes nothing after an accepted write,
    sleeps one second after each refused write, and with two refusals
    followed by an acceptance it writes exactly three times and ends with
    the confirmation line.  Without an open port it only prints its
    diagnostic.  The port's answers never change how a loop iteration
    ends. *)
Theorem send_signal_bounded_retries
    (arduino : option serial) (wr : nat → option exn) (signal : string) :
  (send_signal_to_arduino arduino wr signal 3).2 = Ret tt ∧
  (connected arduino = true →
     (count is_write (send_signal_to_arduino arduino wr signal 3).1 ≤ 3)%nat ∧
     (∀ pre post data,
        (send_signal_to_arduino arduino wr signal 3).1 =
          pre ++ ESerialWrite data true :: post →
        post = [EPrint ("Signal '" +:+ signal +:+ "' sent to Arduino.")]) ∧
     (∀ pre post data,
        (send_signal_to_arduino arduino wr signal 3).1 =
          pre ++ ESerialWrite data false :: post →
        ∃ msg post', post = EPrint msg :: ESleep 1 :: post') ∧
     (count is_sleep (send_signal_to_arduino arduino wr signal 3).1 =
        count is_write (send_signal_to_arduino arduino wr signal 3).1 -
        count is_write_ok (send_signal_to_arduino arduino wr signal 3).1)%nat ∧
     (is_Some (wr 0%nat) → is_Some (wr 1%nat) → wr 2%nat = None →
        count is_write (send_signal_to_arduino arduino wr signal 3).1 = 3%nat ∧
        count is_write_ok (send_signal_to_arduino arduino wr signal 3).1 = 1%nat ∧
        last (send_signal_to_arduino arduino wr signal 3).1 =
          Some (EPrint ("Signal '" +:+ signal +:+ "' sent to Arduino.")))) ∧
  (connected arduino = false →
     (send_signal_to_arduino arduino wr signal 3).1 =
       [ECallSendSignal signal; EPrint "Arduino connection not available."]) ∧
  (∀ g tk, (iteration g (set_write_result wr tk)).2 = (iteration g tk).2).
Proof.
  split; [apply send_signal_returns|]. split; [|split].
  - intros Hopen. rewrite (send_signal_trace_open _ _ _ _ Hopen).
    split; [|split; [|split; [|split]]].
    + rewrite count_cons. simpl. apply send_attempts_writes.
    + intros [|e pre] post data Heq; [discriminate|].
      injection Heq as _ Heq. by eapply send_attempts_stop.
    + intros [|e pre] post data Heq; [discriminate|].
      injection Heq as _ Heq. by eapply send_attempts_delay.
    + rewrite !count_cons. simpl. apply send_attempts_sleeps.
    + intros [e0 H0] [e1 H1] H2.
      rewrite (send_attempts_fail _ _ _ _ _ H0). simpl.
      rewrite (send_attempts_fail _ _ _ _ _ H1). simpl.
      by rewrite (send_attempts_ok _ _ _ _ H2).
  - intros Hclosed. unfold send_signal_to_arduino. rewrite bind_emit.
    by rewrite Hclosed.
  - intros g tk. apply iteration_outcome_writes.
Qed.

(** A witness: a port that refuses twice and then accepts. *)
Lemma send_signal_bounded_retries_witness :
  count is_write
    (send_signal_to_arduino (Some {| is_open := true |})
       (write_result (example_tick true [] 2 (-1))) "A" 3).1 = 3%nat ∧
  count is_write_ok
    (send_signal_to_arduino (Some {| is_open := true |})
       (write_result (example_tick true [] 2 (-1))) "A" 3).1 = 1%nat ∧
  last (send_signal_to_arduino (Some {| is_open := true |})
          (write_result (example_tick true [] 2 (-1))) "A" 3).1 =
    Some (EPrint ("Signal '" +:+ "A" +:+ "' sent to Arduino.")).
Proof.
  destruct (send_signal_bounded_retries (Some {| is_open := true |})
              (write_result (example_tick true [] 2 (-1))) "A")
    as (_ & Hopen & _).
  destruct (Hopen eq_refl) as (_ & _ & _ & _ & H).
  exact (H (mk_is_Some _ _ eq_refl) (mk_is_Some _ _ eq_refl) eq_refl).
Defined.

(** ** Colours *)

Lemma bbox_color_lookup (i : Z) :
  ∃ c, bbox_color i = Ret c ∧ bbox_colors !! Z.to_nat (i `mod` 4) = Some c.
Proof.
  unfold bbox_color. change (Z.of_nat (List.length bbox_colors)) with 4.
  pose proof (Z.mod_pos_bound i 4 eq_refl) as Hb.
  assert (i `mod` 4 = 0 ∨ i `mod` 4 = 1 ∨ i `mod` 4 = 2 ∨ i `mod` 4 = 3)
    as [-> | [-> | [-> | ->]]] by lia; by eexists.
Qed.

(** C7: the palette has four colours, every class index gets the colour at
    position [classidx mod 4], and two class indices that agree modulo 4 get
    the same colour; so do 0 and 4, and 1 and 5. *)
Theorem bbox_color_mod4 :
  List.length bbox_colors = 4%nat ∧
  (∀ i, ∃ c, bbox_color i = Ret c ∧
             bbox_colors !! Z.to_nat (i `mod` 4) = Some c) ∧
  (∀ i j, i `mod` 4 = j `mod` 4 → bbox_color i = bbox_color j) ∧
  bbox_color 0 = bbox_color 4 ∧
  bbox_color 1 = bbox_color 5.
Proof.
  split; [reflexivity|]. split; [apply bbox_color_lookup|].
  split; [|by split].
  intros i j Hij. unfold bbox_color.
  change (Z.of_nat (List.length bbox_colors)) with 4. by rewrite Hij.
Qed.

(** A witness: class indices 2 and 6. *)
Lemma bbox_color_mod4_witness : bbox_color 2 = bbox_color 6.
Proof.
  exact (proj1 (proj2 (proj2 bbox_color_mod4)) 2 6 eq_refl).
Defined.

(** ** Detection filtering *)

Lemma process_detection_skip labels min_thresh d flag :
  bound (labels !! classidx d) = true →
  passes min_thresh d = false →
  process_detection labels min_thresh d flag = ([], Ret flag).
Proof.
  unfold process_detection, lookup_label, passes. intros Hl Hp.
  destruct (labels !! classidx d) as [name|]; [|discriminate].
  unfold mbind, M_bind. simpl. by rewrite Hp.
Qed.

Lemma process_detection_draw labels min_thresh d flag name num den :
  labels !! classidx d = Some name →
  passes min_thresh d = true →
  Py.float_ratio (conf d * 100)%float = Some (num, den) →
  ∃ color,
    bbox_color (classidx d) = Ret color ∧
    process_detection labels min_thresh d flag =
      ([ERectangle (xmin d, ymin d) (xmax d, ymax d) color 2;
        EPutText (label_text name (Z.quot num den)) (xmin d, Np.sub64 (ymin d) 7) color],
       Ret (if String.eqb (Py.lower name) "ambulance" then true else flag)).
Proof.
  unfold process_detection, lookup_label, passes. intros Hl Hp Hr.
  destruct (bbox_color_lookup (classidx d)) as (color & Hc & _).
  exists color. split; [done|].
  rewrite Hl. unfold mbind, M_bind. simpl. rewrite Hp. simpl.
  rewrite Hc. simpl. unfold percentage, Py.int_of_float. rewrite Hr. reflexivity.
Qed.

Lemma float_ratio_den_pos x num den :
  Py.float_ratio x = Some (num, den) → 0 < den.
Proof.
  unfold Py.float_ratio. destruct (Prim2SF x) as [s|s| |s m e]; try discriminate.
  - intros [= <- <-]. lia.
  - destruct (0 <=? e) eqn:He; intros [= <- <-]; [lia|].
    apply Z.pow_pos_nonneg; lia.
Qed.

(** [Z.quot] by a positive number truncates towards zero. *)
Lemma quot_truncates num den :
  0 < den →
  (0 ≤ num → Z.quot num den * den ≤ num < (Z.quot num den + 1) * den) ∧
  (num ≤ 0 → (Z.quot num den - 1) * den < num ≤ Z.quot num den * den).
Proof.
  intros Hden.
  pose proof (Z.quot_rem num den ltac:(lia)) as Hqr.
  split; intros Hnum.
  - pose proof (Z.rem_bound_pos num den Hnum Hden). nia.
  - pose proof (Z.rem_bound_pos_neg num den Hden Hnum). nia.
Qed.

(** ** Case folding *)

Lemma all_ascii_complete (c : ascii) : In c all_ascii.
Proof.
  unfold all_ascii. rewrite <- (ascii_nat_embedding c).
  apply in_map, in_seq. pose proof (nat_ascii_bounded c). lia.
Qed.

Lemma lower_char_table :
  forallb (λ c, forallb (λ x,
    implb (plain x)
      (Bool.eqb (Ascii.eqb (Py.lower_char c) x)
                (Ascii.eqb (fold_case c) (fold_case x)))) all_ascii) all_ascii
  = true.
Proof. vm_compute. reflexivity. Qed.

Lemma lower_char_fold (c x : ascii) :
  plain x = true →
  Ascii.eqb (Py.lower_char c) x = Ascii.eqb (fold_case c) (fold_case x).
Proof.
  intros Hx. pose proof lower_char_table as H.
  rewrite forallb_forall in H. specialize (H c (all_ascii_complete c)).
  rewrite forallb_forall in H. specialize (H x (all_ascii_complete x)).
  rewrite Hx in H. simpl in H. by apply Bool.eqb_prop.
Qed.

(** Comparing [s.lower()] with a string of plain characters is comparing
    [s] with it up to the case of A..Z. *)
Lemma lower_eqb_fold (t : string) : ∀ name,
  forallb plain (list_ascii_of_string t) = true →
  String.eqb (Py.lower name) t = same_ignoring_case name t.
Proof.
  induction t as [|x t IH]; intros [|c name] Ht; simpl; try reflexivity.
  simpl in Ht. apply andb_prop in Ht as [Hx Ht].
  by rewrite (lower_char_fold c x Hx), IH.
Qed.

Lemma lower_match_target labels d : lower_match labels d = is_target labels d.
Proof.
  unfold lower_match, is_target. destruct (labels !! classidx d); [|done].
  by apply lower_eqb_fold.
Qed.

(** ** The detection loop in closed form *)

Lemma process_detections_closed labels min_thresh ds : ∀ flag,
  forallb (well_formed labels min_thresh) ds = true →
  process_detections labels min_thresh ds flag =
    (flat_map (overlay labels) (List.filter (passes min_thresh) ds),
     Ret (flag || existsb (lower_match labels) (List.filter (passes min_thresh) ds))).
Proof.
  induction ds as [|d ds IH]; intros flag Hwf.
  - simpl. by rewrite orb_false_r.
  - simpl in Hwf. apply andb_prop in Hwf as [Hd Hds].
    unfold well_formed in Hd. apply andb_prop in Hd as [Hl Hf].
    cbn [process_detections List.filter].
    destruct (passes min_thresh d) eqn:Hp.
    + destruct (labels !! classidx d) as [name|] eqn:Hn; [|discriminate].
      simpl in Hf.
      destruct (Py.float_ratio (conf d * 100)%float) as [[num den]|] eqn:Hr;
        [|discriminate].
      destruct (process_detection_draw labels min_thresh d flag name num den
                  Hn Hp Hr) as (color & Hc & ->).
      rewrite bind_Ret, IH by done. cbn [flat_map existsb].
      unfold overlay, lower_match. rewrite Hn, Hc, Hr. simpl.
      f_equal. f_equal.
      by destruct (Py.lower name =? "ambulance")%string, flag.
    + rewrite process_detection_skip by done.
      rewrite bind_Ret, IH by done. reflexivity.
Qed.

Lemma rectangles_app (a b : list event) :
  rectangles (a ++ b) = rectangles a ++ rectangles b.
Proof. apply omap_app. Qed.

Lemma texts_app (a b : list event) : texts (a ++ b) = texts a ++ texts b.
Proof. apply omap_app. Qed.

Lemma overlay_shape labels min_thresh d :
  well_formed labels min_thresh d = true →
  passes min_thresh d = true →
  rectangles (overlay labels d) = [box_of d] ∧
  List.map snd (texts (overlay labels d)) = [(xmin d, Np.sub64 (ymin d) 7)] ∧
  count is_draw (overlay labels d) = 2%nat.
Proof.
  unfold well_formed. intros Hd Hp. rewrite Hp in Hd. simpl in Hd.
  apply andb_prop in Hd as [Hl Hf].
  destruct (bbox_color_lookup (classidx d)) as (color & Hc & _).
  unfold overlay.
  destruct (labels !! classidx d) as [name|]; [|discriminate].
  destruct (Py.float_ratio (conf d * 100)%float) as [[num den]|]; [|discriminate].
  rewrite Hc. done.
Qed.

Lemma rectangles_overlays labels min_thresh ds :
  forallb (well_formed labels min_thresh) ds = true →
  rectangles (flat_map (overlay labels) (List.filter (passes min_thresh) ds)) =
    List.map box_of (List.filter (passes min_thresh) ds) ∧
  List.map snd (texts (flat_map (overlay labels) (List.filter (passes min_thresh) ds))) =
    List.map (λ d, (xmin d, Np.sub64 (ymin d) 7)) (List.filter (passes min_thresh) ds) ∧
  count is_draw (flat_map (overlay labels) (List.filter (passes min_thresh) ds)) =
    (2 * List.length (List.filter (passes min_thresh) ds))%nat.
Proof.
  induction ds as [|d ds IH]; intros Hwf; [done|].
  simpl in Hwf. apply andb_prop in Hwf as [Hd Hds].
  specialize (IH Hds). destruct IH as (IH1 & IH2 & IH3).
  cbn [List.filter]. destruct (passes min_thresh d) eqn:Hp; [|done].
  destruct (overlay_shape labels min_thresh d Hd Hp) as (H1 & H2 & H3).
  cbn [flat_map List.map List.length].
  rewrite rectangles_app, texts_app, count_app, List.map_app.
  rewrite H1, H2, H3, IH1, IH2, IH3. split; [done|]. split; [done|lia].
Qed.

Lemma filter_well_formed labels min_thresh ds :
  forallb (well_formed labels min_thresh) ds = true →
  forallb (well_formed labels min_thresh) (List.filter (passes min_thresh) ds) = true.
Proof.
  rewrite !forallb_forall. intros H d Hd. apply filter_In in Hd as [Hd _]. auto.
Qed.

Lemma filter_passes_idem min_thresh (ds : list detection) :
  List.filter (passes min_thresh) (List.filter (passes min_thresh) ds) =
  List.filter (passes min_thresh) ds.
Proof.
  induction ds as [|d ds IH]; [done|]. simpl.
  destruct (passes min_thresh d) eqn:Hp; [|done]. simpl. by rewrite Hp, IH.
Qed.

(** A confidence at or below the threshold does not pass it. *)
Lemma SFleb_not_ltb (a b : spec_float) : SFleb a b = true → SFltb b a = false.
Proof.
  unfold SFleb, SFltb.
  destruct a as [[]|[]| |[] ma ea], b as [[]|[]| |[] mb eb]; simpl; try done;
    rewrite (Z.compare_antisym ea eb);
    destruct (ea ?= eb) eqn:He; simpl; try done.
  all: assert (Pos.compare_cont Eq mb ma = CompOpp (Pos.compare_cont Eq ma mb))
         as -> by (symmetry; apply (Pos.compare_cont_antisym ma mb Eq)).
  all: by destruct (Pos.compare_cont Eq ma mb).
Qed.

Lemma passes_not_leb min_thresh d :
  PrimFloat.leb (conf d) min_thresh = true → passes min_thresh d = false.
Proof.
  unfold passes. rewrite leb_spec, ltb_spec. apply SFleb_not_ltb.
Qed.

(** C4: for a detector that names every class it reports and reports
    confidences whose percentage is finite, the rectangles and labels drawn
    for a frame are those of the detections with [conf > min_thresh], in
    order, and the other detections leave no trace at all: the loop over
    the full list and the loop over the passing detections perform the same
    events and end with the same flag.  With confidences 0.4, 0.5 and 0.51
    the threshold 0.5 draws the third detection only, and the threshold 0.0
    draws all three.  A confidence that is at most the threshold does not
    pass. *)
Theorem threshold_filter_strict
    (labels : gmap Z string) (min_thresh : float) (ds : list detection) :
  forallb (well_formed labels min_thresh) ds = true →
  (∃ tr flag,
     process_detections labels min_thresh ds false = (tr, Ret flag) ∧
     rectangles tr = List.map box_of (List.filter (passes min_thresh) ds) ∧
     List.map snd (texts tr) =
       List.map (λ d, (xmin d, Np.sub64 (ymin d) 7)) (List.filter (passes min_thresh) ds) ∧
     count is_draw tr = (2 * List.length (List.filter (passes min_thresh) ds))%nat ∧
     process_detections labels min_thresh (List.filter (passes min_thresh) ds) false
       = (tr, Ret flag)) ∧
  (∀ d, PrimFloat.leb (conf d) min_thresh = true → passes min_thresh d = false) ∧
  (∀ b1 b2 b3,
     ds = [b1; b2; b3] →
     conf b1 = 0.4%float → conf b2 = 0.5%float → conf b3 = 0.51%float →
     (min_thresh = 0.5%float →
      rectangles (process_detections labels min_thresh ds false).1 = [box_of b3]) ∧
     (min_thresh = 0%float →
      rectangles (process_detections labels min_thresh ds false).1 =
        [box_of b1; box_of b2; box_of b3])).
Proof.
  intros Hwf. split.
  - exists (flat_map (overlay labels) (List.filter (passes min_thresh) ds)),
           (existsb (lower_match labels) (List.filter (passes min_thresh) ds)).
    destruct (rectangles_overlays labels min_thresh ds Hwf) as (H1 & H2 & H3).
    split; [by rewrite process_detections_closed|].
    split; [done|]. split; [done|]. split; [done|].
    rewrite process_detections_closed by by apply filter_well_formed.
    by rewrite filter_passes_idem.
  - split; [intros d; apply passes_not_leb|].
    intros b1 b2 b3 -> H1 H2 H3.
    rewrite process_detections_closed by done. cbn [fst].
    destruct (rectangles_overlays labels min_thresh [b1; b2; b3] Hwf) as (-> & _).
    split; intros ->; unfold passes; simpl; by rewrite H1, H2, H3.
Qed.

(** A witness: the three confidences of the example, threshold 0.5. *)
Lemma threshold_filter_strict_witness :
  rectangles (process_detections example_labels 0.5
                [example_box 0 0.4; example_box 1 0.5; example_box 2 0.51] false).1
  = [box_of (example_box 2 0.51)].
Proof.
  destruct (threshold_filter_strict example_labels 0.5
              [example_box 0 0.4; example_box 1 0.5; example_box 2 0.51]
              eq_refl) as [_ [_ H]].
  exact (proj1 (H (example_box 0 0.4) (example_box 1 0.5) (example_box 2 0.51)
                  eq_refl eq_refl eq_refl eq_refl) eq_refl).
Defined.

(** ** Target detection *)

Lemma existsb_filter_target labels min_thresh ds :
  existsb (lower_match labels) (List.filter (passes min_thresh) ds) = true ↔
  ∃ d, In d ds ∧ passes min_thresh d = true ∧ is_target labels d = true.
Proof.
  rewrite existsb_exists. split.
  - intros (d & Hd & Ht). apply filter_In in Hd as [Hd Hp].
    exists d. by rewrite <- lower_match_target.
  - intros (d & Hd & Hp & Ht). exists d. rewrite lower_match_target.
    split; [|done]. by apply filter_In.
Qed.

(** C5: for a detector that names every class it reports and reports
    confidences whose percentage is finite, [ambulance_detected] ends up
    true exactly when some detection passing the threshold has a class
    name equal to "ambulance" up to the case of its letters.  Passing
    detections named "car" and "Ambulance" set the flag; "car" and "bus"
    do not. *)
Theorem target_found_iff
    (labels : gmap Z string) (min_thresh : float) (ds : list detection) :
  forallb (well_formed labels min_thresh) ds = true →
  (∃ flag,
     (process_detections labels min_thresh ds false).2 = Ret flag ∧
     (flag = true ↔
      ∃ d, In d ds ∧ passes min_thresh d = true ∧ is_target labels d = true)) ∧
  (∀ d1 d2,
     ds = [d1; d2] →
     passes min_thresh d1 = true → passes min_thresh d2 = true →
     labels !! classidx d1 = Some "car"%string →
     (labels !! classidx d2 = Some "Ambulance"%string →
      (process_detections labels min_thresh ds false).2 = Ret true) ∧
     (labels !! classidx d2 = Some "bus"%string →
      (process_detections labels min_thresh ds false).2 = Ret false)).
Proof.
  intros Hwf. rewrite process_detections_closed by done. cbn [snd orb]. split.
  - eexists. split; [reflexivity|]. apply existsb_filter_target.
  - intros d1 d2 -> H1 H2 Hcar. cbn [List.filter]. rewrite H1, H2.
    cbn [existsb]. unfold lower_match. rewrite Hcar.
    by split; intros ->.
Qed.

(** A witness: a passing "car" next to a passing "Ambulance". *)
Lemma target_found_iff_witness :
  (process_detections example_labels 0.5
     [example_box 0 0.75; example_box 1 0.75] false).2 = Ret true.
Proof.
  exact (proj1 (proj2 (target_found_iff example_labels 0.5
                         [example_box 0 0.75; example_box 1 0.75] eq_refl)
                 (example_box 0 0.75) (example_box 1 0.75)
                 eq_refl eq_refl eq_refl eq_refl) eq_refl).
Defined.

(** ** The label *)

(** [int64] subtraction is the subtraction of [Z] as long as the result
    is an [int64], and is off by [2^64] just below. *)
Lemma wrap64_small z :
  Np.int64_min ≤ z ≤ Np.int64_max → Np.wrap64 z = z.
Proof.
  unfold Np.int64_min, Np.int64_max, Np.wrap64. intros H.
  rewrite Z.mod_small; lia.
Qed.

Lemma wrap64_below z :
  Np.int64_min - 2 ^ 64 ≤ z < Np.int64_min → Np.wrap64 z = z + 2 ^ 64.
Proof.
  unfold Np.int64_min, Np.wrap64. intros H.
  rewrite <- (Z.mod_add _ 1) by lia. rewrite Z.mod_small; lia.
Qed.

(** C6, as the script has it: for a detection that passes the threshold,
    the label is the class name, a colon and a space, the decimal digits of
    [conf * 100] truncated towards zero, and a percent sign; it is put at
    [(xmin, ymin - 7)], the difference being an [int64]: seven pixels above
    the top-left corner of the box unless [ymin] is one of the seven
    smallest [int64] values, where the difference wraps around; and it has
    the colour of the rectangle. *)
Theorem label_truncates_percentage
    (labels : gmap Z string) (min_thresh : float) (d : detection)
    (flag : bool) (name : string) :
  labels !! classidx d = Some name →
  passes min_thresh d = true →
  is_Some (Py.float_ratio (conf d * 100)%float) →
  ∃ num den color,
    Py.float_ratio (conf d * 100)%float = Some (num, den) ∧
    0 < den ∧
    (0 ≤ num → Z.quot num den * den ≤ num < (Z.quot num den + 1) * den) ∧
    (num ≤ 0 → (Z.quot num den - 1) * den < num ≤ Z.quot num den * den) ∧
    percentage (conf d) = Ret (Z.quot num den) ∧
    bbox_color (classidx d) = Ret color ∧
    (process_detection labels min_thresh d flag).1 =
      [ERectangle (xmin d, ymin d) (xmax d, ymax d) color 2;
       EPutText (name +:+ ": " +:+ Py.str_of_int (Z.quot num den) +:+ "%")
                (xmin d, Np.sub64 (ymin d) 7) color] ∧
    (Np.int64_min + 7 ≤ ymin d ≤ Np.int64_max →
     Np.sub64 (ymin d) 7 = ymin d - 7) ∧
    (Np.int64_min ≤ ymin d < Np.int64_min + 7 →
     Np.sub64 (ymin d) 7 = ymin d - 7 + 2 ^ 64).
Proof.
  intros Hn Hp [[num den] Hr].
  destruct (process_detection_draw labels min_thresh d flag name num den
              Hn Hp Hr) as (color & Hc & Heq).
  pose proof (float_ratio_den_pos _ _ _ Hr) as Hden.
  destruct (quot_truncates num den Hden) as [Hpos Hneg].
  exists num, den, color.
  split; [exact Hr|]. split; [exact Hden|].
  split; [exact Hpos|]. split; [exact Hneg|].
  split; [unfold percentage, Py.int_of_float; by rewrite Hr|].
  split; [exact Hc|]. split; [by rewrite Heq|]. split.
  - intros H. apply wrap64_small. unfold Np.int64_min, Np.int64_max in *. lia.
  - intros H. apply wrap64_below. unfold Np.int64_min in *. lia.
Qed.

(** A witness: confidence 0.57, whose product with 100 is the float just
    below 57. *)
Lemma label_truncates_percentage_witness :
  ∃ num den color,
    Py.float_ratio (0.57 * 100)%float = Some (num, den) ∧
    0 < den ∧
    (0 ≤ num → Z.quot num den * den ≤ num < (Z.quot num den + 1) * den) ∧
    (num ≤ 0 → (Z.quot num den - 1) * den < num ≤ Z.quot num den * den) ∧
    percentage 0.57 = Ret (Z.quot num den) ∧
    bbox_color 0 = Ret color ∧
    (process_detection example_labels 0.5 (example_box 0 0.57) false).1 =
      [ERectangle (10, 20) (110, 220) color 2;
       EPutText ("car" +:+ ": " +:+ Py.str_of_int (Z.quot num den) +:+ "%")
                (10, Np.sub64 20 7) color] ∧
    (Np.int64_min + 7 ≤ 20 ≤ Np.int64_max → Np.sub64 20 7 = 20 - 7) ∧
    (Np.int64_min ≤ 20 < Np.int64_min + 7 → Np.sub64 20 7 = 20 - 7 + 2 ^ 64).
Proof.
  exact (label_truncates_percentage example_labels 0.5 (example_box 0 0.57)
           false "car" eq_refl eq_refl (mk_is_Some _ _ eq_refl)).
Defined.

(** C6 as the specification words it fails: at confidence 0.999 the script
    writes 99%, while 0.999 * 100 rounded to the nearest integer is 100. *)
Lemma label_percentage_not_rounded :
  texts (process_detection example_labels 0.5 (example_box 0 0.999) false).1
    = [("car: 99%"%string, (10, 13))] ∧
  percentage 0.999 = Ret 99 ∧
  rounded_percentage 0.999 = Some 100.
Proof. vm_compute. done. Qed.

(** ** One signal per iteration *)

Lemma process_detection_quiet labels min_thresh d flag :
  count is_call (process_detection labels min_thresh d flag).1 = 0%nat.
Proof.
  unfold process_detection, lookup_label.
  destruct (labels !! classidx d) as [name|]; [|reflexivity].
  rewrite bind_mret. cbn [fst].
  destruct (PrimFloat.ltb min_thresh (conf d)); [|reflexivity].
  destruct (bbox_color (classidx d)) as [color| | |]; try reflexivity.
  unfold lift. rewrite bind_Ret, bind_emit. cbn [fst app].
  by destruct (percentage (conf d)).
Qed.

Lemma process_detections_quiet labels min_thresh ds : ∀ flag,
  count is_call (process_detections labels min_thresh ds flag).1 = 0%nat.
Proof.
  induction ds as [|d ds IH]; intros flag; [reflexivity|].
  cbn [process_detections].
  pose proof (process_detection_quiet labels min_thresh d flag) as Hd.
  destruct (process_detection labels min_thresh d flag) as [tr [f| | |]];
    try exact Hd.
  rewrite bind_Ret. cbn [fst] in *. by rewrite count_app, Hd, IH.
Qed.

Lemma send_attempts_quiet wr signal n : ∀ attempt,
  count is_call (send_attempts wr signal attempt n).1 = 0%nat ∧
  count is_draw (send_attempts wr signal attempt n).1 = 0%nat.
Proof.
  induction n as [|n IH]; intros attempt; [done|].
  destruct (wr attempt) as [e|] eqn:H.
  - rewrite (send_attempts_fail _ _ _ _ _ H). cbn [fst].
    rewrite !count_app. destruct (IH (S attempt)) as [-> ->]. done.
  - by rewrite (send_attempts_ok _ _ _ _ H).
Qed.

Lemma send_signal_shape arduino wr signal retries :
  ∃ rest,
    send_signal_to_arduino arduino wr signal retries =
      (ECallSendSignal signal :: rest, Ret tt) ∧
    count is_call rest = 0%nat ∧ count is_draw rest = 0%nat.
Proof.
  pose proof (send_signal_returns arduino wr signal retries) as Hr.
  unfold send_signal_to_arduino in *. rewrite bind_emit in *. cbn [snd] in Hr.
  eexists. rewrite Hr. split; [reflexivity|].
  destruct (connected arduino); [apply send_attempts_quiet | done].
Qed.

Lemma next_frame_quiet g tk :
  count is_call (next_frame g tk).1 = 0%nat.
Proof.
  unfold next_frame.
  destruct (source_type g), (imgs_list g), (bound (cap g)), (cap_ret tk);
    reflexivity.
Qed.

Lemma iteration_one_call g tk : one_call_at_most (iteration g tk).1.
Proof.
  unfold iteration.
  pose proof (next_frame_quiet g tk) as Hnf.
  destruct (next_frame g tk) as [nf [g1| | |]]; try (by left).
  rewrite bind_Ret. cbn [fst snd] in *.
  set (rz := if resize g1 then emit (EResize (default (0, 0) (res g1)))
             else mret ()).
  assert (∃ ev, rz = (ev, Ret tt) ∧ count is_call ev = 0%nat) as (ev & -> & Hev)
    by (subst rz; destruct (resize g1); by eexists).
  rewrite bind_Ret, bind_emit. cbn [fst snd].
  pose proof (process_detections_quiet (labels g1) (min_thresh g1) (boxes tk) false)
    as Hpd.
  destruct (process_detections (labels g1) (min_thresh g1) (boxes tk) false)
    as [pd [flag| | |]]; cbn [fst] in Hpd;
    try (left; unfold mbind, M_bind; cbn [fst snd]; count_simpl;
         rewrite Hnf, Hev, Hpd; done).
  rewrite bind_Ret. cbn [fst snd].
  set (tail := emit EImshow;; _).
  assert (count is_call tail.1 = 0%nat ∧ count is_draw tail.1 = 0%nat) as [Ht1 Ht2].
  { subst tail. destruct (record g1), (key tk =? 113), (key tk =? 81); done. }
  clearbody tail. destruct flag.
  - destruct (send_signal_shape (arduino g1) (write_result tk) "A" 3)
      as (rest & -> & Hr1 & Hr2).
    right. exists (nf ++ ev ++ EInfer :: pd), (rest ++ tail.1).
    unfold mbind, M_bind. cbn [fst snd]. split.
    + by rewrite <- !app_assoc.
    + count_simpl. by rewrite Hnf, Hev, Hpd, Hr1, Hr2, Ht1, Ht2.
  - left. unfold mbind, M_bind. cbn [fst snd mret M_ret app].
    count_simpl. by rewrite Hnf, Hev, Hpd, Ht1.
Qed.

(** The number of calls of an iteration, read off the frame source and the
    detection loop. *)
Lemma iteration_calls g tk :
  count is_call (iteration g tk).1 =
    match (next_frame g tk).2 with
    | Ret g1 =>
        match (process_detections (labels g1) (min_thresh g1) (boxes tk) false).2 with
        | Ret true => 1%nat
        | _ => 0%nat
        end
    | _ => 0%nat
    end.
Proof.
  unfold iteration.
  pose proof (next_frame_quiet g tk) as Hnf.
  destruct (next_frame g tk) as [nf [g1| | |]]; try exact Hnf.
  rewrite bind_Ret. cbn [fst snd] in *.
  set (rz := if resize g1 then emit (EResize (default (0, 0) (res g1)))
             else mret ()).
  assert (∃ ev, rz = (ev, Ret tt) ∧ count is_call ev = 0%nat) as (ev & -> & Hev)
    by (subst rz; destruct (resize g1); by eexists).
  rewrite bind_Ret, bind_emit. cbn [fst snd].
  pose proof (process_detections_quiet (labels g1) (min_thresh g1) (boxes tk) false)
    as Hpd.
  destruct (process_detections (labels g1) (min_thresh g1) (boxes tk) false)
    as [pd [flag| | |]]; cbn [fst snd] in *;
    try (unfold mbind, M_bind; cbn [fst snd]; count_simpl;
         rewrite Hnf, Hev, Hpd; done).
  rewrite bind_Ret. cbn [fst snd].
  set (tail := emit EImshow;; _).
  assert (count is_call tail.1 = 0%nat) as Ht.
  { subst tail. destruct (record g1), (key tk =? 113), (key tk =? 81); done. }
  clearbody tail. destruct flag.
  - destruct (send_signal_shape (arduino g1) (write_result tk) "A" 3)
      as (rest & -> & Hr & _).
    unfold mbind, M_bind. cbn [fst snd]. count_simpl.
    by rewrite Hnf, Hev, Hpd, Hr, Ht.
  - unfold mbind, M_bind. cbn [fst snd mret M_ret app]. count_simpl.
    by rewrite Hnf, Hev, Hpd, Ht.
Qed.

(** Around the only call of a trace there is one way to cut the trace. *)
Lemma split_at_call (pre0 : list event) : ∀ pre s0 s post0 post,
  count is_call pre0 = 0%nat → count is_call post0 = 0%nat →
  pre0 ++ ECallSendSignal s0 :: post0 = pre ++ ECallSendSignal s :: post →
  pre = pre0 ∧ s = s0 ∧ post = post0.
Proof.
  induction pre0 as [|e0 pre0 IH]; intros [|e pre] s0 s post0 post H0 Hp Heq;
    simpl in Heq.
  - by injection Heq as <- <-.
  - injection Heq as <- ->. rewrite count_app, count_cons in Hp. simpl in Hp. lia.
  - injection Heq as -> _. rewrite count_cons in H0. simpl in H0. lia.
  - injection Heq as <- Heq. rewrite count_cons in H0.
    destruct (IH pre s0 s post0 post) as (-> & -> & ->); [lia|done|done|done].
Qed.

(** C10: an iteration of the loop calls [send_signal_to_arduino] at most
    once, whatever the detector reports; a call carries the signal 'A' and
    comes after every overlay of the frame; and the call is made exactly
    when the detection loop, started with the flag at [False], ends with
    the flag at [True]. *)
Theorem one_signal_per_iteration (g : globals) (tk : tick) :
  (count is_call (iteration g tk).1 ≤ 1)%nat ∧
  (∀ pre s post,
     (iteration g tk).1 = pre ++ ECallSendSignal s :: post →
     s = "A"%string ∧ count is_call pre = 0%nat ∧ count is_call post = 0%nat ∧
     count is_draw post = 0%nat) ∧
  (count is_call (iteration g tk).1 = 1%nat ↔
   ∃ g1, (next_frame g tk).2 = Ret g1 ∧
         (process_detections (labels g1) (min_thresh g1) (boxes tk) false).2
           = Ret true).
Proof.
  split; [|split].
  - rewrite iteration_calls.
    destruct ((next_frame g tk).2) as [g1| | |]; try lia.
    destruct ((process_detections _ _ _ _).2) as [[]| | |]; lia.
  - intros pre s post Heq.
    destruct (iteration_one_call g tk) as [H0 | (pre0 & post0 & H & Hpre & Hpost & Hd)].
    + rewrite Heq, count_app, count_cons in H0. simpl in H0. lia.
    + rewrite H in Heq.
      by destruct (split_at_call pre0 pre "A" s post0 post Hpre Hpost Heq)
        as (-> & -> & ->).
  - rewrite iteration_calls.
    destruct ((next_frame g tk).2) as [g1| | |].
    + split.
      * intros H. exists g1. split; [done|].
        by destruct ((process_detections _ _ _ _).2) as [[]| | |].
      * intros (g' & [= <-] & ->). done.
    + split; [done | by intros (? & ? & _)].
    + split; [done | by intros (? & ? & _)].
    + split; [done | by intros (? & ? & _)].
Qed.

(** A witness: a frame with two ambulances above the threshold. *)
Lemma one_signal_per_iteration_witness :
  count is_call
    (iteration (example_globals image ["road.jpg"%string])
       (example_tick true [example_box 1 0.75; example_box 1 0.9] 0 (-1))).1
  = 1%nat.
Proof.
  apply (proj2 (proj2 (one_signal_per_iteration
                         (example_globals image ["road.jpg"%string])
                         (example_tick true [example_box 1 0.75; example_box 1 0.9]
                            0 (-1))))).
  eexists. split; reflexivity.
Defined.

(** ** Source classification *)

Lemma digit_table :
  forallb (λ c, implb (is_digit c)
    (negb (Py.is_space c) && negb (Ascii.eqb c "_") &&
     negb (Ascii.eqb c "-") && negb (Ascii.eqb c "+"))) all_ascii = true.
Proof. vm_compute. reflexivity. Qed.

Lemma digit_plain c :
  is_digit c = true →
  Py.is_space c = false ∧ Ascii.eqb c "_" = false ∧
  Ascii.eqb c "-" = false ∧ Ascii.eqb c "+" = false.
Proof.
  intros Hc. pose proof digit_table as H. rewrite forallb_forall in H.
  specialize (H c (all_ascii_complete c)). rewrite Hc in H. simpl in H.
  repeat (apply andb_prop in H as [H ?]).
  repeat split; by apply negb_true_iff.
Qed.

Lemma parse_digits_all (cs : list ascii) : ∀ acc prev,
  forallb is_digit cs = true →
  prev = true ∨ cs ≠ [] →
  Py.parse_digits acc prev cs =
    Some (fold_left (λ acc c, 10 * acc + default 0 (Py.digit_of c)) cs acc).
Proof.
  induction cs as [|c cs IH]; intros acc prev Hds Hne.
  - destruct Hne as [-> | Hne]; [reflexivity | done].
  - simpl in Hds. apply andb_prop in Hds as [Hc Hds].
    destruct (digit_plain c Hc) as (_ & Hu & _).
    cbn [Py.parse_digits fold_left]. rewrite Hu.
    unfold is_digit in Hc. destruct (Py.digit_of c) as [d|]; [|discriminate].
    apply IH; auto.
Qed.

Lemma lstrip_digit c cs : is_digit c = true → Py.lstrip (c :: cs) = c :: cs.
Proof. intros Hc. simpl. by destruct (digit_plain c Hc) as (-> & _). Qed.

Lemma strip_digits cs :
  forallb is_digit cs = true → Py.strip cs = cs.
Proof.
  intros Hds. unfold Py.strip.
  assert (∀ l, forallb is_digit l = true → Py.lstrip l = l) as Hl.
  { intros [|c l] H; [done|]. simpl in H. apply andb_prop in H as [Hc _].
    by apply lstrip_digit. }
  rewrite (Hl cs Hds), Hl, rev_involutive; [done|].
  rewrite forallb_forall in *. intros c Hc. apply Hds. by apply in_rev.
Qed.

Lemma is_digit_isdigit c : Py.isdigit c = is_digit c.
Proof. unfold Py.isdigit, is_digit. by destruct (Py.digit_of c). Qed.

Lemma filter_digits cs :
  forallb is_digit cs = true → List.filter Py.isdigit cs = cs.
Proof.
  induction cs as [|c cs IH]; [done|]. cbn [forallb List.filter].
  intros H. apply andb_prop in H as [Hc Hcs].
  by rewrite is_digit_isdigit, Hc, IH.
Qed.

Lemma length_chars (t : string) :
  List.length (list_ascii_of_string t) = String.length t.
Proof. induction t as [|c t IH]; [done|]. cbn. by rewrite IH. Qed.

(** [int] of a string of one or more digits, up to the limit, is the
    number they spell; beyond the limit it is refused. *)
Lemma int_of_digits (t : string) :
  bound (head (list_ascii_of_string t)) = true →
  forallb is_digit (list_ascii_of_string t) = true →
  (String.length t ≤ Py.int_max_str_digits)%nat →
  Py.int_of_str t = Ret (digits_value (list_ascii_of_string t)).
Proof.
  intros Hne Hds Hlen. unfold Py.int_of_str. rewrite strip_digits by done.
  rewrite <- length_chars in Hlen.
  destruct (list_ascii_of_string t) as [|c cs] eqn:Ht; [discriminate|].
  pose proof Hds as Hds'. simpl in Hds'. apply andb_prop in Hds' as [Hc _].
  destruct (digit_plain c Hc) as (_ & _ & -> & ->).
  unfold Py.literal. rewrite (filter_digits _ Hds).
  destruct (Nat.ltb_spec Py.int_max_str_digits (List.length (c :: cs))); [lia|].
  by rewrite parse_digits_all; [|done|right].
Qed.


Lemma prefix_contains sub s : String.prefix sub s = true → Py.contains sub s = true.
Proof. intros H. destruct s; simpl in *; by rewrite H. Qed.

Lemma str_in_In x l : str_in x l = true ↔ In x l.
Proof.
  unfold str_in. rewrite existsb_exists. split.
  - intros (y & Hy & Heq). apply String.eqb_eq in Heq. by subst.
  - intros H. exists x. split; [done|]. apply String.eqb_refl.
Qed.

(** A start-up that does not reach the loop: the run is the start-up's
    events and exit status, whatever the collaborators would have
    answered in the loop. *)
Lemma run_without_loop w a ticks :
  (∀ g, (startup w a).2 ≠ Ret g) →
  run w a ticks = ((startup w a).1, status_of (startup w a).2).
Proof.
  intros H. unfold run. destruct ((startup w a).2) as [g| | |]; [|done..].
  by destruct (H g).
Qed.




(** ** Start-up failures *)

Lemma init_serial_returns (available : bool) :
  ∃ ev, init_serial available =
          (ev, Ret (if available then Some {| is_open := true |} else None)).
Proof. destruct available; by eexists. Qed.

Lemma handle_resolution_silent user_res :
  (handle_resolution user_res).1 = [].
Proof.
  unfold handle_resolution. destruct (truthy user_res); [|done].
  unfold parse_resolution.
  destruct (Py.split_on _ _) as [|x [|y [|z l]]]; try done.
  - by destruct (Py.int_of_str x).
  - by destruct (Py.int_of_str x), (Py.int_of_str y).
  - by destruct (Py.int_of_str x).
Qed.






(** ** A start-up that reaches the loop *)

Lemma startup_inv w a g :
  (startup w a).2 = Ret g →
  path_exists w (arg_model a) = true ∧
  (determine_input_type w (arg_source a)).2 = Ret (source_type g, usb_idx g) ∧
  (handle_resolution (arg_resolution a)).2 = Ret (res g) ∧
  (recording_setup (arg_record a) (source_type g) (arg_resolution a) (res g)).2
    = Ret tt ∧
  (open_source w (source_type g) (usb_idx g) (arg_source a) (arg_resolution a)
     (res g)).2 = Ret (imgs_list g, cap g) ∧
  arduino g = (if serial_available w then Some {| is_open := true |} else None) ∧
  record g = arg_record a ∧ labels g = names w ∧
  min_thresh g = arg_thresh a ∧ resize g = truthy (arg_resolution a) ∧
  (startup w a).1 =
    (init_serial (serial_available w)).1 ++
    ELoadModel (arg_model a) ::
    (determine_input_type w (arg_source a)).1 ++
    (handle_resolution (arg_resolution a)).1 ++
    (recording_setup (arg_record a) (source_type g) (arg_resolution a) (res g)).1 ++
    (open_source w (source_type g) (usb_idx g) (arg_source a) (arg_resolution a)
       (res g)).1.
Proof.
  destruct (init_serial_returns (serial_available w)) as (ev0 & Hinit).
  unfold startup, check_model. rewrite Hinit.
  destruct (path_exists w (arg_model a)); [|discriminate].
  unfold mbind, M_bind. cbn [fst snd mret M_ret emit app].
  destruct (determine_input_type w (arg_source a)) as [ev1 [[k i]| | |]];
    cbn [fst snd]; try discriminate.
  destruct (handle_resolution (arg_resolution a)) as [ev2 [r| | |]];
    cbn [fst snd]; try discriminate.
  destruct (recording_setup (arg_record a) k (arg_resolution a) r)
    as [ev3 [[]| | |]] eqn:Hrs; cbn [fst snd]; try discriminate.
  destruct (open_source w k i (arg_source a) (arg_resolution a) r)
    as [ev4 [[q c]| | |]] eqn:Hos; cbn [fst snd]; try discriminate.
  intros [= <-]. cbn. rewrite Hrs, Hos. cbn.
  repeat split; try reflexivity.
  by rewrite app_nil_r.
Qed.

(** ** The image queue *)

Lemma next_frame_queue g tk :
  source_type g = folder ∨ source_type g = image →
  next_frame g tk =
    match imgs_list g with
    | [] => ([EPrint "All images processed. Exiting."], Exit 0)
    | file :: rest => ([EImread file], Ret (set_imgs_list rest g))
    end.
Proof.
  intros [H | H]; unfold next_frame; rewrite H; by destruct (imgs_list g).
Qed.

(** *** The extension of a simple file name *)

Lemma rfind_from_app x s1 : ∀ s2 i last,
  Py.rfind_from x (s1 +:+ s2) i last =
    Py.rfind_from x s2 (i + Z.of_nat (String.length s1)) (Py.rfind_from x s1 i last).
Proof.
  induction s1 as [|c s1 IH]; intros s2 i last.
  - cbn. by rewrite Z.add_0_r.
  - change (String c s1 +:+ s2) with (String c (s1 +:+ s2)).
    cbn [Py.rfind_from String.length]. rewrite IH. f_equal. lia.
Qed.

Lemma rfind_from_free x s : ∀ i last,
  no_char x s = true → Py.rfind_from x s i last = last.
Proof.
  unfold no_char. induction s as [|c s IH]; intros i last H; [done|].
  cbn [list_ascii_of_string forallb] in H. apply andb_prop in H as [Hc Hs].
  apply negb_true_iff in Hc. cbn [Py.rfind_from]. rewrite Hc. by apply IH.
Qed.

Lemma rfind_from_bounds x s : ∀ i last,
  last < i →
  last ≤ Py.rfind_from x s i last < i + Z.of_nat (String.length s).
Proof.
  induction s as [|c s IH]; intros i last H; cbn [Py.rfind_from String.length].
  - lia.
  - destruct (Ascii.eqb c x).
    + specialize (IH (i + 1) i). lia.
    + specialize (IH (i + 1) last). lia.
Qed.

Lemma rfind_bounds x s : -1 ≤ Py.rfind x s < Z.of_nat (String.length s).
Proof. unfold Py.rfind. pose proof (rfind_from_bounds x s 0 (-1)). lia. Qed.

(** The last [x] of [pre ++ c ++ "." ++ e]. *)
Lemma rfind_simple x pre c e :
  Ascii.eqb c x = false → no_char x e = true →
  Py.rfind x (pre +:+ String c (String "." e)) =
    if Ascii.eqb "." x then Z.of_nat (String.length pre) + 1
    else Py.rfind x pre.
Proof.
  intros Hc He. unfold Py.rfind. rewrite rfind_from_app.
  cbn [Py.rfind_from]. rewrite Hc, (rfind_from_free _ _ _ _ He).
  destruct (Ascii.eqb "." x); [lia|done].
Qed.

Lemma has_non_dot_true extsep p n : ∀ from j ch,
  (from ≤ j < from + n)%nat →
  String.get j p = Some ch → Ascii.eqb ch extsep = false →
  Py.has_non_dot extsep p from n = true.
Proof.
  induction n as [|n IH]; intros from j ch Hj Hg Hch; [lia|].
  cbn [Py.has_non_dot]. destruct (String.get from p) as [c0|] eqn:E; [|done].
  destruct (Ascii.eqb c0 extsep) eqn:E0; [|done].
  apply (IH (S from) j ch); [|done|done].
  assert (from ≠ j); [|lia]. intros ->. congruence.
Qed.

Lemma get_app_length pre c t :
  String.get (String.length pre) (pre +:+ String c t) = Some c.
Proof. induction pre as [|x pre IH]; [done|]. exact IH. Qed.

Lemma slice_to_app pre : ∀ n t,
  Py.slice_to (String.length pre + n) (pre +:+ t) = pre +:+ Py.slice_to n t.
Proof.
  induction pre as [|x pre IH]; intros n t; [done|].
  change (String x pre +:+ t) with (String x (pre +:+ t)).
  cbn [String.length Nat.add Py.slice_to]. by rewrite IH.
Qed.

Lemma slice_from_app pre : ∀ n t,
  Py.slice_from (String.length pre + n) (pre +:+ t) = Py.slice_from n t.
Proof.
  induction pre as [|x pre IH]; intros n t; [done|].
  change (String x pre +:+ t) with (String x (pre +:+ t)).
  cbn [String.length Nat.add Py.slice_from]. by rewrite IH.
Qed.

Lemma _splitext_simple pre c e sep altsep :
  Ascii.eqb c "." = false → no_char "." e = true →
  Ascii.eqb c sep = false → no_char sep e = true → Ascii.eqb "." sep = false →
  match altsep with
  | Some alt =>
      Ascii.eqb c alt = false ∧ no_char alt e = true ∧ Ascii.eqb "." alt = false
  | None => True
  end →
  Py._splitext (pre +:+ String c (String "." e)) sep altsep "." =
    (pre +:+ String c EmptyString, String "." e).
Proof.
  intros Hc He Hcs Hes Hds Halt. unfold Py._splitext.
  rewrite (rfind_simple "." pre c e Hc He), (rfind_simple sep pre c e Hcs Hes).
  rewrite Hds. change (Ascii.eqb "." ".") with true. cbv iota.
  set (L := String.length pre).
  assert (∃ si, -1 ≤ si < Z.of_nat L ∧
                match altsep with
                | Some a =>
                    Z.max (Py.rfind sep pre)
                          (Py.rfind a (pre +:+ String c (String "." e)))
                | None => Py.rfind sep pre
                end = si) as (si & Hsi & ->).
  { pose proof (rfind_bounds sep pre). destruct altsep as [alt|].
    - destruct Halt as (Hca & Hea & Hda).
      rewrite (rfind_simple alt pre c e Hca Hea), Hda.
      pose proof (rfind_bounds alt pre). eexists. split; [|reflexivity].
      subst L. lia.
    - eexists. split; [|reflexivity]. subst L. lia. }
  cbv zeta.
  destruct (Z.ltb_spec si (Z.of_nat L + 1)); [|lia]. cbn [andb].
  rewrite (has_non_dot_true "." _ _ _ L c); [| lia | apply get_app_length | done].
  replace (Z.to_nat (Z.of_nat L + 1)) with (L + 1)%nat by lia.
  subst L. rewrite slice_to_app, slice_from_app. done.
Qed.

(** On either system, the extension of a simple name is what follows its
    last dot, whatever precedes the name. *)
Lemma splitext_simple w pre c e :
  simple_name c e = true →
  splitext w (pre +:+ String c (String "." e)) =
    (pre +:+ String c EmptyString, String "." e).
Proof.
  unfold simple_name. intros H.
  repeat (apply andb_prop in H as [H ?]).
  repeat match goal with
         | H : negb _ = true |- _ => apply negb_true_iff in H
         end.
  unfold splitext. destruct (nt w); by apply _splitext_simple.
Qed.

(** C8, as the script has it: for a folder source the queue is the answer
    of [glob.glob(source + '/*')], in its order, restricted to the entries
    whose extension, as [os.path.splitext] gives it, is one of .jpg, .jpeg,
    .png and .bmp, compared exactly; the entries are not tested for being
    files; no capture is opened; each frame request reads the head of the
    queue and leaves the rest, and on an empty queue it ends the stream.
    When [glob] answers a.jpg, b.txt and c.png, under whatever common
    prefix, the queue holds the first and the third, and three frame
    requests read these two and then end the stream. *)
Theorem folder_queue_fifo (w : world) (a : args) (g : globals) :
  (startup w a).2 = Ret g →
  source_type g = folder →
  imgs_list g =
    List.filter (λ file, str_in (splitext w file).2 img_ext_list)
                (glob w (arg_source a +:+ "/*")) ∧
  cap g = None ∧
  (∀ ext, str_in ext img_ext_list = true ↔
          ext = ".jpg"%string ∨ ext = ".jpeg"%string ∨
          ext = ".png"%string ∨ ext = ".bmp"%string) ∧
  (∀ g' tk, source_type g' = folder →
     next_frame g' tk =
       match imgs_list g' with
       | [] => ([EPrint "All images processed. Exiting."], Exit 0)
       | file :: rest => ([EImread file], Ret (set_imgs_list rest g'))
       end) ∧
  (∀ pre,
     glob w (arg_source a +:+ "/*") =
       [pre +:+ "a.jpg"; pre +:+ "b.txt"; pre +:+ "c.png"] →
     (splitext w (pre +:+ "a.jpg")).2 = ".jpg"%string ∧
     (splitext w (pre +:+ "b.txt")).2 = ".txt"%string ∧
     (splitext w (pre +:+ "c.png")).2 = ".png"%string ∧
     imgs_list g = [pre +:+ "a.jpg"; pre +:+ "c.png"] ∧
     ∀ tk1 tk2 tk3, ∃ g1 g2,
       next_frame g tk1 = ([EImread (pre +:+ "a.jpg")], Ret g1) ∧
       next_frame g1 tk2 = ([EImread (pre +:+ "c.png")], Ret g2) ∧
       next_frame g2 tk3 = ([EPrint "All images processed. Exiting."], Exit 0)).
Proof.
  intros Hs Hk.
  destruct (startup_inv w a g Hs) as (_ & _ & _ & _ & Hos & _).
  rewrite Hk in Hos. cbn in Hos. injection Hos as Hq Hc.
  split; [done|]. split; [done|]. split; [|split].
  - intros ext. rewrite str_in_In. simpl. split.
    + intros [<- | [<- | [<- | [<- | [] ] ] ] ]; auto.
    + intros [-> | [-> | [-> | ->] ] ]; auto 6.
  - intros g' tk Hg'. apply next_frame_queue. by left.
  - intros pre Hglob.
    assert ((splitext w (pre +:+ "a.jpg")).2 = ".jpg"%string) as H1
      by (by rewrite (splitext_simple w pre "a" "jpg" eq_refl)).
    assert ((splitext w (pre +:+ "b.txt")).2 = ".txt"%string) as H2
      by (by rewrite (splitext_simple w pre "b" "txt" eq_refl)).
    assert ((splitext w (pre +:+ "c.png")).2 = ".png"%string) as H3
      by (by rewrite (splitext_simple w pre "c" "png" eq_refl)).
    split; [done|]. split; [done|]. split; [done|].
    assert (imgs_list g = [pre +:+ "a.jpg"; pre +:+ "c.png"]) as Hl.
    { rewrite <- Hq, Hglob. simpl. by rewrite H1, H2, H3. }
    split; [done|]. intros tk1 tk2 tk3.
    exists (set_imgs_list [pre +:+ "c.png"] g), (set_imgs_list [] g).
    rewrite !next_frame_queue by (by left). by rewrite Hl.
Qed.

(** A witness: the folder [imgs] of the example machine, where [glob]
    answers imgs/a.jpg, imgs/b.txt and imgs/c.png. *)
Lemma folder_queue_fifo_witness :
  (startup example_world (example_args "best.pt" "imgs" None false)).2 =
    Ret (example_globals folder ["imgs/a.jpg"; "imgs/c.png"]%string) ∧
  (splitext example_world "imgs/b.txt").2 = ".txt"%string ∧
  ∀ tk1 tk2 tk3, ∃ g1 g2,
    next_frame (example_globals folder ["imgs/a.jpg"; "imgs/c.png"]%string) tk1
      = ([EImread "imgs/a.jpg"], Ret g1) ∧
    next_frame g1 tk2 = ([EImread "imgs/c.png"], Ret g2) ∧
    next_frame g2 tk3 = ([EPrint "All images processed. Exiting."], Exit 0).
Proof.
  destruct (proj2 (proj2 (proj2 (proj2
              (folder_queue_fifo example_world
                 (example_args "best.pt" "imgs" None false)
                 (example_globals folder ["imgs/a.jpg"; "imgs/c.png"]%string)
                 eq_refl eq_refl))))
              "imgs/"%string eq_refl) as (_ & H2 & _ & _ & H5).
  split; [reflexivity|]. split; [exact H2 | exact H5].
Defined.

(** C8 as the specification words it fails: the queue is not made of files
    only.  Where the folder holds a directory named sub.png, [glob] reports
    it, its extension is .png, and the script queues it and later hands it
    to [cv2.imread]. *)
Lemma folder_queue_not_only_files :
  path_isdir example_world_subdir "imgs/sub.png" = true ∧
  path_isfile example_world_subdir "imgs/sub.png" = false ∧
  (startup example_world_subdir (example_args "best.pt" "imgs" None false)).2 =
    Ret (example_globals folder ["imgs/a.jpg"; "imgs/sub.png"]%string) ∧
  files_read
    (run example_world_subdir (example_args "best.pt" "imgs" None false)
       [example_tick true [] 0 (-1); example_tick true [] 0 (-1)]).1 =
    ["imgs/a.jpg"; "imgs/sub.png"]%string.
Proof. vm_compute. done. Qed.

(** ** Resources *)

Lemma bind_quiet {A B} p (m : M A) (f : A → M B) :
  count p m.1 = 0%nat → (∀ a, count p (f a).1 = 0%nat) →
  count p (m ≫= f).1 = 0%nat.
Proof.
  intros Hm Hf. unfold mbind, M_bind.
  destruct m as [ev [a| | |]]; cbn [fst snd] in *; try done.
  by rewrite count_app, Hm, Hf.
Qed.

Lemma bind_Ret_inv {A B} (m : M A) (f : A → M B) b :
  (m ≫= f).2 = Ret b → ∃ a, m.2 = Ret a ∧ (f a).2 = Ret b.
Proof.
  unfold mbind, M_bind. destruct m as [ev [a| | |]]; cbn [fst snd]; try done.
  by exists a.
Qed.

Lemma process_detections_no_resource labels min_thresh ds : ∀ flag,
  count is_resource (process_detections labels min_thresh ds flag).1 = 0%nat.
Proof.
  induction ds as [|d ds IH]; intros flag; [reflexivity|].
  cbn [process_detections]. apply bind_quiet; [|done].
  unfold process_detection, lookup_label.
  destruct (labels !! classidx d) as [name|]; [|reflexivity].
  rewrite bind_mret. cbn [fst].
  destruct (PrimFloat.ltb min_thresh (conf d)); [|reflexivity].
  destruct (bbox_color (classidx d)) as [color| | |]; try reflexivity.
  unfold lift. rewrite bind_Ret, bind_emit. cbn [fst app].
  by destruct (percentage (conf d)).
Qed.

Lemma send_attempts_no_resource wr signal n : ∀ attempt,
  count is_resource (send_attempts wr signal attempt n).1 = 0%nat.
Proof.
  induction n as [|n IH]; intros attempt; [done|].
  destruct (wr attempt) as [e|] eqn:H.
  - rewrite (send_attempts_fail _ _ _ _ _ H). cbn [fst].
    rewrite count_app. by rewrite (IH (S attempt)).
  - by rewrite (send_attempts_ok _ _ _ _ H).
Qed.

Lemma send_signal_no_resource arduino wr signal retries :
  count is_resource (send_signal_to_arduino arduino wr signal retries).1 = 0%nat.
Proof.
  unfold send_signal_to_arduino. rewrite bind_emit. cbn [fst].
  rewrite count_cons. cbn [is_resource].
  destruct (connected arduino); [apply send_attempts_no_resource|reflexivity].
Qed.

Lemma next_frame_no_resource g tk :
  count is_resource (next_frame g tk).1 = 0%nat.
Proof.
  unfold next_frame.
  destruct (source_type g), (imgs_list g), (bound (cap g)), (cap_ret tk);
    reflexivity.
Qed.

Lemma iteration_no_resource g tk :
  count is_resource (iteration g tk).1 = 0%nat.
Proof.
  unfold iteration.
  apply bind_quiet; [apply next_frame_no_resource|]. intros g1.
  apply bind_quiet; [by destruct (resize g1)|]. intros _.
  apply bind_quiet; [done|]. intros _.
  apply bind_quiet; [apply process_detections_no_resource|]. intros flag.
  apply bind_quiet; [destruct flag; [apply send_signal_no_resource|done]|].
  intros _. by destruct (record g1), (key tk =? 113), (key tk =? 81).
Qed.

Lemma iteration_preserves g tk g' :
  (iteration g tk).2 = Ret g' →
  cap g' = cap g ∧ record g' = record g ∧ arduino g' = arduino g ∧
  source_type g' = source_type g.
Proof.
  unfold iteration. intros H.
  apply bind_Ret_inv in H as (g1 & Hnf & H).
  assert (cap g1 = cap g ∧ record g1 = record g ∧ arduino g1 = arduino g ∧
          source_type g1 = source_type g) as Hg1.
  { unfold next_frame in Hnf.
    destruct (source_type g) eqn:Hk, (imgs_list g), (bound (cap g)),
      (cap_ret tk); cbn in Hnf; try discriminate; injection Hnf as <-;
      cbn; by rewrite ?Hk. }
  apply bind_Ret_inv in H as (? & _ & H).
  apply bind_Ret_inv in H as (? & _ & H).
  apply bind_Ret_inv in H as (? & _ & H).
  apply bind_Ret_inv in H as (? & _ & H).
  apply bind_Ret_inv in H as (? & _ & H).
  apply bind_Ret_inv in H as (? & _ & H).
  apply bind_Ret_inv in H as (? & _ & H).
  apply bind_Ret_inv in H as (? & _ & H).
  apply bind_Ret_inv in H as (? & _ & H).
  cbn in H. by injection H as <-.
Qed.

Lemma loop_no_resource ticks : ∀ g,
  count is_resource (loop g ticks).1 = 0%nat.
Proof.
  induction ticks as [|tk ticks IH]; intros g; [reflexivity|].
  cbn [loop]. pose proof (iteration_no_resource g tk) as Hi.
  destruct (iteration g tk) as [ev [g'| | |]]; cbn [fst snd] in *; try done.
  by rewrite count_app, Hi, IH.
Qed.

Lemma loop_broke ticks : ∀ g g',
  (loop g ticks).2 = Broke g' →
  cap g' = cap g ∧ record g' = record g ∧ arduino g' = arduino g.
Proof.
  induction ticks as [|tk ticks IH]; intros g g'; [discriminate|].
  cbn [loop]. pose proof (iteration_preserves g tk) as Hp.
  destruct (iteration g tk) as [ev [g1| | |]]; cbn [fst snd] in *;
    try discriminate.
  - intros H. destruct (IH _ _ H) as (-> & -> & ->).
    by destruct (Hp g1 eq_refl) as (-> & -> & -> & _).
  - by intros [= <-].
Qed.

Lemma resources_app a b : resources (a ++ b) = resources a ++ resources b.
Proof. apply List.filter_app. Qed.

Lemma resources_none tr : count is_resource tr = 0%nat → resources tr = [].
Proof. unfold count, resources. by destruct (List.filter is_resource tr). Qed.

Lemma resources_skip e tr : is_resource e = false → resources (e :: tr) = resources tr.
Proof. intros H. unfold resources. simpl. by rewrite H. Qed.

Lemma determine_input_type_no_resource w s :
  resources (determine_input_type w s).1 = [].
Proof.
  unfold determine_input_type.
  destruct (path_isdir w s); [done|].
  destruct (path_isfile w s).
  - by destruct (str_in (splitext w s).2 img_ext_list),
               (str_in (splitext w s).2 vid_ext_list).
  - destruct (Py.contains "usb" s); [|done].
    by destruct (Py.int_of_str (Py.slice_from 3 s)).
Qed.

Lemma startup_resources w a g :
  (startup w a).2 = Ret g → resources (startup w a).1 = opened g.
Proof.
  intros Hs.
  destruct (startup_inv w a g Hs)
    as (_ & _ & _ & Hrs & Hos & Hard & Hrec & _ & _ & Hrz & ->).
  rewrite resources_app, resources_skip by done.
  rewrite resources_app, determine_input_type_no_resource.
  rewrite handle_resolution_silent. cbn [app].
  rewrite resources_app. unfold opened. f_equal; [|f_equal].
  - rewrite Hard. by destruct (serial_available w).
  - rewrite Hrec. unfold recording_setup in *.
    destruct (arg_record a); [|done].
    destruct (is_cap_source (source_type g)); [|discriminate].
    by destruct (truthy (arg_resolution a)).
  - unfold open_source in *.
    destruct (source_type g), (usb_idx g), (truthy (arg_resolution a)),
      (res g) as [[]|]; cbn in Hos; injection Hos as _ <-; done.
Qed.

Lemma cleanup_resources g :
  cleanup g = (released g, Ret tt).
Proof.
  unfold cleanup, released.
  by destruct (bound (cap g)), (record g), (bound (arduino g)).
Qed.

(** The paths that leave the loop through [break] (the end of a video or
    camera stream, the keys q and Q): the process ends with status 0, and
    between its start and its end it opened what [opened] lists and
    released each of them once, together with the windows; what was not
    opened is not released. *)
Theorem break_releases_once w a ticks g g' :
  (startup w a).2 = Ret g →
  (loop g ticks).2 = Broke g' →
  (run w a ticks).2 = ExitStatus 0 ∧
  resources (run w a ticks).1 = opened g ++ released g.
Proof.
  intros Hs Hl. unfold run. rewrite Hs, Hl, cleanup_resources. cbn [fst snd].
  split; [done|].
  destruct (loop_broke ticks g g' Hl) as (Hc & Hr & Ha).
  rewrite !resources_app, (startup_resources w a g Hs).
  rewrite (resources_none _ (loop_no_resource ticks g)). cbn [app].
  f_equal. unfold released. rewrite Hc, Hr, Ha.
  by destruct (bound (cap g)), (record g), (bound (arduino g)).
Qed.

(** The path that leaves the loop through the [sys.exit(0)] of the empty
    image queue: the process ends at once, and nothing start-up opened is
    released. *)
Theorem queue_end_releases_nothing w a ticks g code :
  (startup w a).2 = Ret g →
  (loop g ticks).2 = Exited code →
  (run w a ticks).2 = ExitStatus code ∧
  resources (run w a ticks).1 = opened g.
Proof.
  intros Hs Hl. unfold run. rewrite Hs, Hl. cbn [fst snd]. split; [done|].
  rewrite resources_app, (startup_resources w a g Hs).
  rewrite (resources_none _ (loop_no_resource ticks g)). apply app_nil_r.
Qed.

(** A witness: a video that ends after one frame, with the serial port
    open and no recording. *)
Lemma break_releases_once_witness :
  (run example_world (example_args "best.pt" "road.mp4" None false)
     [example_tick true [] 0 (-1); example_tick false [] 0 (-1)]).2 = ExitStatus 0 ∧
  resources
    (run example_world (example_args "best.pt" "road.mp4" None false)
       [example_tick true [] 0 (-1); example_tick false [] 0 (-1)]).1 =
    [ESerialOpen "COM11" 9600 1; ECapOpen (inl "road.mp4"%string);
     ECapRelease; EDestroyAllWindows; ESerialClose].
Proof.
  exact (break_releases_once example_world
           (example_args "best.pt" "road.mp4" None false)
           [example_tick true [] 0 (-1); example_tick false [] 0 (-1)]
           {| arduino := Some {| is_open := true |}; min_thresh := 0.5%float;
              labels := example_labels; source_type := video; usb_idx := None;
              resize := false; res := None; record := false; imgs_list := [];
              cap := Some (inl "road.mp4"%string) |}
           _ eq_refl eq_refl).
Defined.

(** A witness: a single image, with the serial port open. *)
Lemma queue_end_releases_nothing_witness :
  (run example_world (example_args "best.pt" "road.jpg" None false)
     [example_tick true [] 0 (-1); example_tick true [] 0 (-1)]).2 = ExitStatus 0 ∧
  resources
    (run example_world (example_args "best.pt" "road.jpg" None false)
       [example_tick true [] 0 (-1); example_tick true [] 0 (-1)]).1 =
    [ESerialOpen "COM11" 9600 1].
Proof.
  exact (queue_end_releases_nothing example_world
           (example_args "best.pt" "road.jpg" None false)
           [example_tick true [] 0 (-1); example_tick true [] 0 (-1)]
           (example_globals image ["road.jpg"%string]) 0 eq_refl eq_refl).
Defined.

(** C1 fails on the image and folder sources.  A run on one image with the
    serial port connected: the image is read and shown, the next request
    finds the queue empty and the script leaves through [sys.exit(0)]
    inside the loop, so the clean-up block never runs: the port that
    start-up opened is not closed and the window is not destroyed.  The
    same machine on a video that ends after one frame leaves through
    [break] and releases the capture, the windows and the port, each
    once; so does the quit key on the image source. *)
Theorem image_queue_end_skips_cleanup :
  run example_world (example_args "best.pt" "road.jpg" None false)
      [example_tick true [] 0 (-1); example_tick true [] 0 (-1)] =
    ([ESerialOpen "COM11" 9600 1; ESleep 2; EPrint "Connected to Arduino";
      ELoadModel "best.pt"; EImread "road.jpg"; EInfer; EImshow; EWaitKey 5;
      EFps; EPrint "All images processed. Exiting."], ExitStatus 0) ∧
  count is_serial_close
    (run example_world (example_args "best.pt" "road.jpg" None false)
       [example_tick true [] 0 (-1); example_tick true [] 0 (-1)]).1 = 0%nat ∧
  count is_destroy
    (run example_world (example_args "best.pt" "road.jpg" None false)
       [example_tick true [] 0 (-1); example_tick true [] 0 (-1)]).1 = 0%nat ∧
  resources
    (run example_world (example_args "best.pt" "road.mp4" None false)
       [example_tick true [] 0 (-1); example_tick false [] 0 (-1)]).1 =
    [ESerialOpen "COM11" 9600 1; ECapOpen (inl "road.mp4"%string);
     ECapRelease; EDestroyAllWindows; ESerialClose] ∧
  resources
    (run example_world (example_args "best.pt" "road.jpg" None false)
       [example_tick true [] 0 113]).1 =
    [ESerialOpen "COM11" 9600 1; EDestroyAllWindows; ESerialClose].
Proof. vm_compute. done. Qed.

(** * Further properties *)

(** ** The shape of an iteration *)

(** An iteration, spelled out along the two places where it can stop
    early: the frame source and the detection loop. *)
Lemma iteration_shape g tk :
  iteration g tk =
    match next_frame g tk with
    | (nf, Ret g1) =>
        match process_detections (labels g1) (min_thresh g1) (boxes tk) false with
        | (pd, Ret flag) =>
            (nf ++ before_detections g1 ++ pd ++ signalling g1 tk flag ++
             after_signal g1 tk,
             if quit_key (key tk) then Break else Ret g1)
        | (pd, Break) => (nf ++ before_detections g1 ++ pd, Break)
        | (pd, Exit c) => (nf ++ before_detections g1 ++ pd, Exit c)
        | (pd, Raise e) => (nf ++ before_detections g1 ++ pd, Raise e)
        end
    | (nf, Break) => (nf, Break)
    | (nf, Exit c) => (nf, Exit c)
    | (nf, Raise e) => (nf, Raise e)
    end.
Proof.
  unfold iteration.
  destruct (next_frame g tk) as [nf [g1| | |]]; try reflexivity.
  rewrite bind_Ret. cbn [fst snd].
  unfold before_detections, signalling, after_signal, quit_key.
  destruct (process_detections (labels g1) (min_thresh g1) (boxes tk) false)
    as [pd [flag| | |]];
    try (destruct (resize g1); unfold mbind, M_bind; cbn [fst snd emit mret M_ret];
         by rewrite <- ?app_assoc).
  destruct flag.
  - destruct (send_signal_shape (arduino g1) (write_result tk) "A" 3)
      as (rest & -> & _).
    destruct (resize g1), (record g1), (key tk =? 113), (key tk =? 81);
      unfold mbind, M_bind; cbn [fst snd emit mret M_ret break orb app];
      by rewrite <- ?app_assoc, ?app_nil_r.
  - destruct (resize g1), (record g1), (key tk =? 113), (key tk =? 81);
      unfold mbind, M_bind; cbn [fst snd emit mret M_ret break orb app];
      by rewrite <- ?app_assoc, ?app_nil_r.
Qed.

(** ** The globals *)

Lemma determine_input_type_idx w s k i :
  (determine_input_type w s).2 = Ret (k, i) →
  bound i = match k with usb => true | _ => false end.
Proof.
  unfold determine_input_type.
  destruct (path_isdir w s); [by intros [= <- <-]|].
  destruct (path_isfile w s).
  - destruct (str_in (splitext w s).2 img_ext_list); [by intros [= <- <-]|].
    destruct (str_in (splitext w s).2 vid_ext_list); [by intros [= <- <-]|done].
  - destruct (Py.contains "usb" s); [|done].
    destruct (Py.int_of_str (Py.slice_from 3 s)); try done.
    by intros [= <- <-].
Qed.

Lemma handle_resolution_bound user_res r :
  (handle_resolution user_res).2 = Ret r → bound r = truthy user_res.
Proof.
  unfold handle_resolution. destruct (truthy user_res); [|by intros [= <-]].
  destruct (parse_resolution (default EmptyString user_res)) as [ev [x| | |]];
    try done.
  by intros [= <-].
Qed.

Lemma recording_setup_ok rec k user_res r :
  (recording_setup rec k user_res r).2 = Ret tt →
  rec = true → is_cap_source k = true ∧ truthy user_res = true.
Proof.
  unfold recording_setup. intros H ->.
  by destruct (is_cap_source k), (truthy user_res).
Qed.

Lemma open_source_ok w k i src user_res r q c :
  (open_source w k i src user_res r).2 = Ret (q, c) →
  bound c = is_cap_source k ∧ (is_cap_source k = true → q = []).
Proof.
  unfold open_source.
  destruct k, i, (truthy user_res), r as [[]|]; cbn; intros [= <- <-]; done.
Qed.

(** Start-up leaves the globals as the loop expects them, and every
    iteration that falls through keeps them so. *)
Lemma startup_globals_ok w a g :
  (startup w a).2 = Ret g → globals_ok g = true.
Proof.
  intros Hs.
  destruct (startup_inv w a g Hs)
    as (_ & Hdit & Hres & Hrs & Hos & _ & Hrec & _ & _ & Hrz & _).
  apply determine_input_type_idx in Hdit.
  apply handle_resolution_bound in Hres.
  apply open_source_ok in Hos as [Hc Hq].
  pose proof (recording_setup_ok _ _ _ _ Hrs) as Hr.
  unfold globals_ok. rewrite Hc, Hrz, Hres, Hdit, Hrec.
  rewrite !Bool.eqb_reflx. cbn [andb].
  destruct (arg_record a).
  - destruct (Hr eq_refl) as [Hk Ht]. rewrite Hk, Ht in *. cbn.
    by rewrite (Hq eq_refl).
  - cbn. destruct (is_cap_source (source_type g)); [|done]. by rewrite Hq.
Qed.

Lemma next_frame_globals_ok g tk g1 :
  (next_frame g tk).2 = Ret g1 → globals_ok g = true → globals_ok g1 = true.
Proof.
  unfold next_frame, globals_ok.
  destruct (source_type g) eqn:Hk, (imgs_list g) eqn:Hq, (bound (cap g)) eqn:Hc,
    (cap_ret tk); cbn; try discriminate; intros [= <-]; cbn;
    rewrite ?Hk, ?Hq, ?Hc; cbn; try done.
  all: by rewrite !andb_true_r.
Qed.

Lemma iteration_Ret g tk g' :
  (iteration g tk).2 = Ret g' →
  (next_frame g tk).2 = Ret g' ∧ quit_key (key tk) = false.
Proof.
  rewrite iteration_shape.
  destruct (next_frame g tk) as [nf [g1| | |]]; try done.
  destruct (process_detections _ _ _ _) as [pd [flag| | |]]; try done.
  cbn. by destruct (quit_key (key tk)); intros [= <-].
Qed.

Lemma iteration_globals_ok g tk g' :
  (iteration g tk).2 = Ret g' → globals_ok g = true → globals_ok g' = true.
Proof.
  intros H. apply iteration_Ret in H as [H _]. by apply (next_frame_globals_ok g tk).
Qed.

Lemma loop_globals_ok ticks : ∀ g g',
  globals_ok g = true →
  (loop g ticks).2 = Looping g' ∨ (loop g ticks).2 = Broke g' →
  globals_ok g' = true.
Proof.
  induction ticks as [|tk ticks IH]; intros g g' Hg.
  - cbn. by intros [[= <-] | ?].
  - cbn [loop]. pose proof (iteration_globals_ok g tk) as Hi.
    destruct (iteration g tk) as [ev [g1| | |]]; cbn [fst snd] in *.
    + apply IH. by apply Hi.
    + by intros [? | [= <-]].
    + by intros [? | ?].
    + by intros [? | ?].
Qed.

(** Whenever start-up reaches the loop, the globals it leaves, and the
    globals after any number of iterations, satisfy [globals_ok]; so in the
    loop a video or camera source always has its capture, a resize and the
    recorder always have their resolution, and recording never runs on an
    image or folder source. *)
Theorem globals_stay_ok w a g :
  (startup w a).2 = Ret g →
  globals_ok g = true ∧
  (∀ ticks g',
     (loop g ticks).2 = Looping g' ∨ (loop g ticks).2 = Broke g' →
     globals_ok g' = true) ∧
  (is_cap_source (source_type g) = true → ∃ src, cap g = Some src) ∧
  (resize g = true → ∃ resW resH, res g = Some (resW, resH)) ∧
  (record g = true →
   is_cap_source (source_type g) = true ∧ ∃ resW resH, res g = Some (resW, resH)).
Proof.
  intros Hs. pose proof (startup_globals_ok w a g Hs) as Hok.
  split; [done|]. split; [intros ticks g'; by apply loop_globals_ok|].
  unfold globals_ok in Hok.
  repeat (apply andb_prop in Hok as [Hok ?]).
  apply Bool.eqb_prop in Hok.
  match goal with H : Bool.eqb (resize g) _ = true |- _ =>
    apply Bool.eqb_prop in H; rename H into Hrz end.
  match goal with H : implb (record g) _ = true |- _ => rename H into Hrec end.
  split; [|split].
  - intros Hk. rewrite Hk in Hok. destruct (cap g); [by eexists|done].
  - intros Hr. rewrite Hr in Hrz. destruct (res g) as [[]|]; [by eexists _, _|done].
  - intros Hr. rewrite Hr in Hrec. cbn in Hrec.
    apply andb_prop in Hrec as [Hk Hr']. split; [done|].
    rewrite Hr' in Hrz. destruct (res g) as [[]|]; [by eexists _, _|done].
Qed.

(** A witness: a recorded video at 640x480. *)
Lemma globals_stay_ok_witness :
  is_cap_source video = true ∧ ∃ resW resH, Some (640, 480) = Some (resW, resH).
Proof.
  exact (proj2 (proj2 (proj2 (proj2
           (globals_stay_ok example_world
              (example_args "best.pt" "road.mp4" (Some "640x480"%string) true)
              {| arduino := Some {| is_open := true |}; min_thresh := 0.5%float;
                 labels := example_labels; source_type := video; usb_idx := None;
                 resize := true; res := Some (640, 480); record := true;
                 imgs_list := []; cap := Some (inl "road.mp4"%string) |}
              eq_refl)))) eq_refl).
Defined.

(** ** How an iteration can end *)

Lemma process_detection_outcome labels min_thresh d flag :
  match (process_detection labels min_thresh d flag).2 with
  | Ret _ => True
  | Raise e => e = KeyError ∨ e = OverflowError ∨ e = ValueError
  | _ => False
  end.
Proof.
  unfold process_detection, lookup_label.
  destruct (labels !! classidx d) as [name|]; [|cbn; auto].
  rewrite bind_mret. cbn [snd].
  destruct (PrimFloat.ltb min_thresh (conf d)); [|done].
  destruct (bbox_color_lookup (classidx d)) as (color & -> & _).
  unfold lift. rewrite bind_Ret, bind_emit. cbn [snd].
  unfold percentage, Py.int_of_float.
  destruct (Py.float_ratio (conf d * 100)%float) as [[num den]|]; [done|].
  destruct (PrimFloat.eqb _ _); cbn; auto.
Qed.

Lemma process_detections_outcome labels min_thresh ds : ∀ flag,
  match (process_detections labels min_thresh ds flag).2 with
  | Ret _ => True
  | Raise e => e = KeyError ∨ e = OverflowError ∨ e = ValueError
  | _ => False
  end.
Proof.
  induction ds as [|d ds IH]; intros flag; [done|].
  cbn [process_detections].
  pose proof (process_detection_outcome labels min_thresh d flag) as Hd.
  destruct (process_detection labels min_thresh d flag) as [ev [f| | |]];
    cbn [snd] in Hd; try done.
  rewrite bind_Ret. cbn [snd]. apply IH.
Qed.

Lemma process_detections_no_imshow labels min_thresh ds : ∀ flag,
  count is_imshow (process_detections labels min_thresh ds flag).1 = 0%nat.
Proof.
  induction ds as [|d ds IH]; intros flag; [reflexivity|].
  cbn [process_detections]. apply bind_quiet; [|done].
  unfold process_detection, lookup_label.
  destruct (labels !! classidx d) as [name|]; [|reflexivity].
  rewrite bind_mret. cbn [fst].
  destruct (PrimFloat.ltb min_thresh (conf d)); [|reflexivity].
  destruct (bbox_color (classidx d)) as [color| | |]; try reflexivity.
  unfold lift. rewrite bind_Ret, bind_emit. cbn [fst app].
  by destruct (percentage (conf d)).
Qed.

Lemma next_frame_cases g tk :
  (is_cap_source (source_type g) = false ∧
   match imgs_list g with
   | [] => next_frame g tk = ([EPrint "All images processed. Exiting."], Exit 0)
   | file :: rest => next_frame g tk = ([EImread file], Ret (set_imgs_list rest g))
   end) ∨
  (is_cap_source (source_type g) = true ∧
   if bound (cap g) then
     if cap_ret tk then next_frame g tk = ([ECapRead true], Ret g)
     else next_frame g tk =
            ([ECapRead false; EPrint "End of video/camera stream."], Break)
   else next_frame g tk = ([], Ret g)).
Proof.
  unfold next_frame.
  destruct (source_type g); [left|left|right|right]; split; try done.
  1,2: by destruct (imgs_list g).
  all: by destruct (bound (cap g)), (cap_ret tk).
Qed.

Lemma iteration_unfold g tk :
  iteration g tk = (g1 ← next_frame g tk; frame_body g1 tk).
Proof. reflexivity. Qed.

Lemma frame_body_shape g tk :
  frame_body g tk =
    match process_detections (labels g) (min_thresh g) (boxes tk) false with
    | (pd, Ret flag) =>
        (before_detections g ++ pd ++ signalling g tk flag ++ after_signal g tk,
         if quit_key (key tk) then Break else Ret g)
    | (pd, Break) => (before_detections g ++ pd, Break)
    | (pd, Exit c) => (before_detections g ++ pd, Exit c)
    | (pd, Raise e) => (before_detections g ++ pd, Raise e)
    end.
Proof.
  unfold frame_body, before_detections, signalling, after_signal, quit_key.
  destruct (process_detections (labels g) (min_thresh g) (boxes tk) false)
    as [pd [flag| | |]];
    try (destruct (resize g); unfold mbind, M_bind; cbn [fst snd emit mret M_ret];
         by rewrite <- ?app_assoc).
  destruct flag.
  - destruct (send_signal_shape (arduino g) (write_result tk) "A" 3)
      as (rest & -> & _).
    destruct (resize g), (record g), (key tk =? 113), (key tk =? 81);
      unfold mbind, M_bind; cbn [fst snd emit mret M_ret break orb app];
      by rewrite <- ?app_assoc, ?app_nil_r.
  - destruct (resize g), (record g), (key tk =? 113), (key tk =? 81);
      unfold mbind, M_bind; cbn [fst snd emit mret M_ret break orb app];
      by rewrite <- ?app_assoc, ?app_nil_r.
Qed.

Lemma frame_body_endings g tk :
  match (frame_body g tk).2 with
  | Ret g' => quit_key (key tk) = false ∧ g' = g
  | Exit _ => False
  | Break =>
      quit_key (key tk) = true ∧
      ∃ pre, (frame_body g tk).1 =
               pre ++ [EImshow] ++ (if record g then [ERecorderWrite] else []) ++
               [EWaitKey 5]
  | Raise e =>
      (e = KeyError ∨ e = OverflowError ∨ e = ValueError) ∧
      count is_imshow (frame_body g tk).1 = 0%nat
  end.
Proof.
  rewrite frame_body_shape.
  pose proof (process_detections_outcome (labels g) (min_thresh g)
                (boxes tk) false) as Ho.
  pose proof (process_detections_no_imshow (labels g) (min_thresh g)
                (boxes tk) false) as Hs.
  destruct (process_detections _ _ _ _) as [pd [flag| | |]];
    cbn [fst snd] in *; try done.
  - destruct (quit_key (key tk)) eqn:Hkey; [|done].
    split; [done|]. unfold after_signal. rewrite Hkey.
    exists (before_detections g ++ pd ++ signalling g tk flag).
    by rewrite app_nil_r, <- !app_assoc.
  - split; [done|]. unfold before_detections.
    destruct (resize g); count_simpl; cbn; by rewrite Hs.
Qed.

(** What ends an iteration.  [sys.exit] happens only with status 0,
    only on an image or folder source whose queue is empty, and then the
    iteration did nothing but print its last line.  [break] happens only
    when the capture has no frame, before anything else is done, or on the
    keys q and Q, after the frame was shown (and recorded when recording is
    on).  An exception can only come out of the detection loop, as
    [KeyError], [OverflowError] or [ValueError], never from the serial
    port, and then the frame is not shown.  An iteration that falls through
    saw no quit key. *)
Theorem iteration_endings (g : globals) (tk : tick) :
  match (iteration g tk).2 with
  | Ret g' => quit_key (key tk) = false ∧ (next_frame g tk).2 = Ret g'
  | Exit code =>
      code = 0 ∧ is_cap_source (source_type g) = false ∧ imgs_list g = [] ∧
      (iteration g tk).1 = [EPrint "All images processed. Exiting."]
  | Break =>
      (is_cap_source (source_type g) = true ∧ cap_ret tk = false ∧
       (iteration g tk).1 = [ECapRead false; EPrint "End of video/camera stream."]) ∨
      (quit_key (key tk) = true ∧
       ∃ pre, (iteration g tk).1 =
                pre ++ [EImshow] ++ (if record g then [ERecorderWrite] else []) ++
                [EWaitKey 5])
  | Raise e =>
      (e = KeyError ∨ e = OverflowError ∨ e = ValueError) ∧
      count is_imshow (iteration g tk).1 = 0%nat
  end.
Proof.
  rewrite iteration_unfold.
  destruct (next_frame_cases g tk) as [[Hk Hnf] | [Hk Hnf]].
  - destruct (imgs_list g) as [|file rest] eqn:Hq; rewrite Hnf; [done|].
    rewrite bind_Ret. cbn [fst snd].
    pose proof (frame_body_endings (set_imgs_list rest g) tk) as Hb.
    destruct (frame_body (set_imgs_list rest g) tk) as [tr [g'| | |]];
      cbn [fst snd] in *; try done.
    + by destruct Hb as [? ->].
    + right. destruct Hb as (Hkey & pre & ->). split; [done|].
      exists (EImread file :: pre). by cbn.
  - destruct (bound (cap g)), (cap_ret tk); rewrite Hnf; try (left; done).
    all: rewrite bind_Ret; cbn [fst snd];
      pose proof (frame_body_endings g tk) as Hb;
      destruct (frame_body g tk) as [tr [g'| | |]]; cbn [fst snd] in *;
      try done.
    all: try (by destruct Hb as [? ->]).
    all: try (right; destruct Hb as (Hkey & pre & ->); split; [done|];
              first [ by exists (ECapRead true :: pre) | by exists pre ]).
    all: destruct Hb as [He Hc]; split; [done|]; count_simpl; cbn; by rewrite ?Hc.
Qed.

(** ** A machine without Arduino *)

Lemma process_detection_only_draws labels min_thresh d flag :
  forallb is_draw (process_detection labels min_thresh d flag).1 = true.
Proof.
  unfold process_detection, lookup_label.
  destruct (labels !! classidx d) as [name|]; [|reflexivity].
  rewrite bind_mret. cbn [fst].
  destruct (PrimFloat.ltb min_thresh (conf d)); [|reflexivity].
  destruct (bbox_color (classidx d)) as [color| | |]; try reflexivity.
  unfold lift. rewrite bind_Ret, bind_emit. cbn [fst app].
  by destruct (percentage (conf d)).
Qed.

Lemma process_detections_only_draws labels min_thresh ds : ∀ flag,
  forallb is_draw (process_detections labels min_thresh ds flag).1 = true.
Proof.
  induction ds as [|d ds IH]; intros flag; [reflexivity|].
  cbn [process_detections].
  pose proof (process_detection_only_draws labels min_thresh d flag) as Hd.
  destruct (process_detection labels min_thresh d flag) as [tr [f| | |]];
    cbn [fst] in Hd; try exact Hd.
  rewrite bind_Ret. cbn [fst]. by rewrite forallb_app, Hd, IH.
Qed.

Lemma count_disjoint p q (tr : list event) :
  forallb q tr = true → (∀ e, q e = true → p e = false) → count p tr = 0%nat.
Proof.
  intros Hq Hpq. induction tr as [|e tr IH]; [done|].
  cbn in Hq. apply andb_prop in Hq as [He Hq].
  rewrite count_cons, (Hpq e He), IH; done.
Qed.

Lemma next_frame_with_arduino x g tk :
  next_frame (with_arduino x g) tk =
    ((next_frame g tk).1, map_outcome (with_arduino x) (next_frame g tk).2).
Proof.
  unfold next_frame. cbn [source_type imgs_list cap with_arduino].
  by destruct (source_type g), (imgs_list g), (bound (cap g)), (cap_ret tk).
Qed.

Lemma frame_body_with_arduino x g tk :
  (frame_body (with_arduino x g) tk).2 =
    map_outcome (with_arduino x) (frame_body g tk).2.
Proof.
  rewrite !frame_body_shape. cbn [labels min_thresh with_arduino].
  destruct (process_detections (labels g) (min_thresh g) (boxes tk) false)
    as [pd [flag| | |]]; try done.
  cbn. by destruct (quit_key (key tk)).
Qed.

Lemma iteration_with_arduino x g tk :
  (iteration (with_arduino x g) tk).2 =
    map_outcome (with_arduino x) (iteration g tk).2.
Proof.
  rewrite !iteration_unfold, next_frame_with_arduino.
  destruct (next_frame g tk) as [nf [g1| | |]]; try done.
  cbn [fst snd map_outcome]. rewrite !bind_Ret. cbn [snd].
  apply frame_body_with_arduino.
Qed.

Lemma loop_with_arduino x ticks : ∀ g,
  (loop (with_arduino x g) ticks).2 = map_loop_end (with_arduino x) (loop g ticks).2.
Proof.
  induction ticks as [|tk ticks IH]; intros g; [done|].
  cbn [loop]. pose proof (iteration_with_arduino x g tk) as Hi.
  destruct (iteration g tk) as [ev [g1| | |]],
           (iteration (with_arduino x g) tk) as [ev' [g1'| | |]];
    cbn [fst snd map_outcome map_loop_end] in *; try done.
  - injection Hi as ->. apply IH.
  - by injection Hi as ->.
  - by injection Hi as ->.
Qed.

Lemma startup_stages_serial b w :
  (∀ m, check_model (set_serial_available b w) m = check_model w m) ∧
  (∀ s, determine_input_type (set_serial_available b w) s =
        determine_input_type w s) ∧
  (∀ k i s u r, open_source (set_serial_available b w) k i s u r =
                open_source w k i s u r).
Proof. done. Qed.

Lemma startup_serial b w a :
  (startup (set_serial_available b w) a).2 =
    map_outcome
      (with_arduino (if b then Some {| is_open := true |} else None))
      (startup w a).2.
Proof.
  destruct (init_serial_returns b) as (ev & Hb).
  destruct (init_serial_returns (serial_available w)) as (ev' & Hw).
  destruct (startup_stages_serial b w) as (Hcm & Hdit & Hos).
  unfold startup. rewrite Hcm, Hdit.
  cbn [serial_available set_serial_available names].
  rewrite Hb, Hw. rewrite !bind_Ret. cbn [snd].
  unfold check_model. destruct (path_exists w (arg_model a)); [|done].
  unfold mbind, M_bind. cbn [fst snd mret M_ret emit].
  destruct (determine_input_type w (arg_source a)) as [ev1 [[k i]| | |]];
    cbn [fst snd]; try done.
  destruct (handle_resolution (arg_resolution a)) as [ev2 [r| | |]];
    cbn [fst snd]; try done.
  destruct (recording_setup (arg_record a) k (arg_resolution a) r)
    as [ev3 [[]| | |]]; cbn [fst snd]; try done.
  rewrite Hos.
  by destruct (open_source w k i (arg_source a) (arg_resolution a) r)
    as [ev4 [[q c]| | |]].
Qed.

Lemma frame_body_no_traffic g tk :
  arduino g = None → count is_serial_traffic (frame_body g tk).1 = 0%nat.
Proof.
  intros Ha. rewrite frame_body_shape.
  pose proof (process_detections_only_draws (labels g) (min_thresh g)
                (boxes tk) false) as Hd.
  assert (count is_serial_traffic
            (process_detections (labels g) (min_thresh g) (boxes tk) false).1
          = 0%nat) as Hpd
    by (apply (count_disjoint _ is_draw); [done | by intros []]).
  assert (∀ flag, count is_serial_traffic (signalling g tk flag) = 0%nat) as Hsig.
  { intros [|]; [|done]. unfold signalling, send_signal_to_arduino.
    by rewrite Ha. }
  assert (count is_serial_traffic (before_detections g) = 0%nat) as Hb
    by (unfold before_detections; by destruct (resize g)).
  assert (count is_serial_traffic (after_signal g tk) = 0%nat) as Hafter
    by (unfold after_signal; by destruct (record g), (quit_key (key tk))).
  destruct (process_detections _ _ _ _) as [pd [flag| | |]]; cbn [fst] in *;
    rewrite !count_app, ?Hsig; lia.
Qed.

Lemma iteration_no_traffic g tk :
  arduino g = None → count is_serial_traffic (iteration g tk).1 = 0%nat.
Proof.
  intros Ha. rewrite iteration_unfold.
  assert (count is_serial_traffic (next_frame g tk).1 = 0%nat) as Hnf.
  { unfold next_frame.
    by destruct (source_type g), (imgs_list g), (bound (cap g)), (cap_ret tk). }
  assert (∀ g1, (next_frame g tk).2 = Ret g1 → arduino g1 = None) as Hg1.
  { intros g1. unfold next_frame.
    destruct (source_type g), (imgs_list g), (bound (cap g)), (cap_ret tk);
      cbn; try done; by intros [= <-]. }
  destruct (next_frame g tk) as [nf [g1| | |]]; cbn [fst snd] in *; try done.
  rewrite bind_Ret. cbn [fst]. rewrite count_app, Hnf.
  by rewrite frame_body_no_traffic by by apply Hg1.
Qed.

Lemma loop_no_traffic ticks : ∀ g,
  arduino g = None → count is_serial_traffic (loop g ticks).1 = 0%nat.
Proof.
  induction ticks as [|tk ticks IH]; intros g Ha; [done|].
  cbn [loop]. pose proof (iteration_no_traffic g tk Ha) as Hi.
  pose proof (iteration_preserves g tk) as Hp.
  destruct (iteration g tk) as [ev [g1| | |]]; cbn [fst snd] in *; try done.
  destruct (Hp g1 eq_refl) as (_ & _ & Ha1 & _).
  rewrite count_app, Hi, IH; [done|]. by rewrite Ha1.
Qed.

Lemma startup_no_traffic w a :
  serial_available w = false →
  count is_serial_traffic (startup w a).1 = 0%nat.
Proof.
  intros Hw. unfold startup. rewrite Hw.
  apply bind_quiet; [done|]. intros ard.
  apply bind_quiet.
  { unfold check_model. by destruct (path_exists w (arg_model a)). }
  intros _. apply bind_quiet; [done|]. intros _.
  apply bind_quiet.
  { unfold determine_input_type.
    destruct (path_isdir w (arg_source a)); [done|].
    destruct (path_isfile w (arg_source a)).
    - by destruct (str_in (splitext w (arg_source a)).2 img_ext_list),
                  (str_in (splitext w (arg_source a)).2 vid_ext_list).
    - destruct (Py.contains "usb" (arg_source a)); [|done].
      by destruct (Py.int_of_str (Py.slice_from 3 (arg_source a))). }
  intros [k i]. apply bind_quiet.
  { by rewrite handle_resolution_silent. }
  intros r. apply bind_quiet.
  { unfold recording_setup.
    by destruct (arg_record a), (is_cap_source k), (truthy (arg_resolution a)). }
  intros _. apply bind_quiet.
  { unfold open_source.
    by destruct k, i, (truthy (arg_resolution a)), r as [[]|]. }
  by intros [q c].
Qed.

(** The Arduino is not needed.  Whether the serial port could be
    opened at start-up has no influence on how the run ends; and on a
    machine without it the script never writes to a port and never waits
    for one. *)
Theorem arduino_not_needed (w : world) (a : args) (ticks : list tick) :
  (∀ b, (run (set_serial_available b w) a ticks).2 = (run w a ticks).2) ∧
  (serial_available w = false →
   count is_serial_traffic (run w a ticks).1 = 0%nat).
Proof.
  split.
  - intros b. unfold run. rewrite startup_serial.
    destruct (startup w a) as [ev [g| | |]],
             (startup (set_serial_available b w) a) as [ev' o'];
      cbn [fst snd map_outcome status_of]; try done.
    rewrite loop_with_arduino.
    destruct (loop g ticks) as [lev [g'|c|e|g']],
             (loop (with_arduino _ g) ticks) as [lev' o''];
      cbn [fst snd map_loop_end]; try done.
    by rewrite !cleanup_resources.
  - intros Hw. unfold run.
    pose proof (startup_no_traffic w a Hw) as Hs.
    pose proof (startup_inv w a) as Hinv.
    destruct (startup w a) as [ev [g| | |]]; cbn [fst snd] in *; try done.
    destruct (Hinv g eq_refl) as (_ & _ & _ & _ & _ & Ha & _).
    rewrite Hw in Ha.
    pose proof (loop_no_traffic ticks g Ha) as Hl.
    pose proof (loop_broke ticks g) as Hb.
    destruct (loop g ticks) as [lev [g'|c|e|g']]; cbn [fst snd] in *;
      rewrite ?count_app, ?Hs, ?Hl; try done.
    destruct (Hb g' eq_refl) as (_ & _ & Ha').
    rewrite cleanup_resources. cbn [fst]. unfold released. rewrite Ha', Ha.
    by destruct (bound (cap g')), (record g').
Qed.

(** A witness: an ambulance in an image, no Arduino. *)
Lemma arduino_not_needed_witness :
  count is_serial_traffic
    (run (set_serial_available false example_world)
         (example_args "best.pt" "road.jpg" None false)
         [example_tick true [example_box 1 0.75] 3 (-1);
          example_tick true [] 0 (-1)]).1 = 0%nat.
Proof.
  exact (proj2 (arduino_not_needed (set_serial_available false example_world)
                  (example_args "best.pt" "road.jpg" None false)
                  [example_tick true [example_box 1 0.75] 3 (-1);
                   example_tick true [] 0 (-1)]) eq_refl).
Defined.

(** ** The resolution *)










(** ** Counting frames *)

Lemma send_attempts_signal_events wr signal n : ∀ attempt,
  forallb is_signal_event (send_attempts wr signal attempt n).1 = true.
Proof.
  induction n as [|n IH]; intros attempt; [done|].
  destruct (wr attempt) as [e|] eqn:H.
  - rewrite (send_attempts_fail _ _ _ _ _ H). cbn [fst].
    rewrite forallb_app. by rewrite (IH (S attempt)).
  - by rewrite (send_attempts_ok _ _ _ _ H).
Qed.

Lemma signalling_signal_events g tk flag :
  forallb is_signal_event (signalling g tk flag) = true.
Proof.
  destruct flag; [|done]. unfold signalling, send_signal_to_arduino.
  rewrite bind_emit. cbn [fst forallb is_signal_event andb].
  destruct (connected (arduino g)); [apply send_attempts_signal_events|done].
Qed.

Lemma count_frame_parts p g tk flag :
  (∀ e, p e = true → is_frame_event e = true) →
  (∀ f, count p (process_detections (labels g) (min_thresh g) (boxes tk) f).1
        = 0%nat) ∧
  count p (signalling g tk flag) = 0%nat.
Proof.
  intros Hp. split.
  - intros f. apply (count_disjoint _ is_draw);
      [apply process_detections_only_draws|].
    intros e He. destruct (p e) eqn:Hpe; [|done].
    apply Hp in Hpe. by destruct e.
  - apply (count_disjoint _ is_signal_event); [apply signalling_signal_events|].
    intros e He. destruct (p e) eqn:Hpe; [|done].
    apply Hp in Hpe. by destruct e.
Qed.

(** The frame events of the loop body, whatever its end: one inference,
    preceded by one resize when a resolution was given; one display when
    the detection loop came through, followed by one recorder write when
    recording is on; no read. *)
Lemma frame_body_counts g tk :
  count is_infer (frame_body g tk).1 = 1%nat ∧
  count is_resize (frame_body g tk).1 = (if resize g then 1 else 0)%nat ∧
  count is_imshow (frame_body g tk).1 =
    (match (process_detections (labels g) (min_thresh g) (boxes tk) false).2 with
     | Ret _ => 1 | _ => 0 end)%nat ∧
  count is_recorder_write (frame_body g tk).1 =
    (if record g then count is_imshow (frame_body g tk).1 else 0)%nat ∧
  count is_imread (frame_body g tk).1 = 0%nat ∧
  count is_capread_ok (frame_body g tk).1 = 0%nat.
Proof.
  rewrite frame_body_shape.
  assert (∀ p, (∀ e, p e = true → is_frame_event e = true) →
    count p
      (let (pd, o) := process_detections (labels g) (min_thresh g) (boxes tk) false in
       match o with
       | Ret flag =>
           (before_detections g ++ pd ++ signalling g tk flag ++ after_signal g tk,
            if quit_key (key tk) then Break else Ret g)
       | Break => (before_detections g ++ pd, Break)
       | Exit c => (before_detections g ++ pd, Exit c)
       | Raise e => (before_detections g ++ pd, Raise e)
       end).1 =
    (count p (before_detections g) +
     match (process_detections (labels g) (min_thresh g) (boxes tk) false).2 with
     | Ret _ => count p (after_signal g tk)
     | _ => 0
     end)%nat) as Hcount.
  { intros p Hp.
    pose proof (proj1 (count_frame_parts p g tk false Hp) false) as Hpd.
    destruct (process_detections _ _ _ _) as [pd [flag| | |]]; cbn [fst snd] in *;
      rewrite !count_app, ?Hpd; try lia.
    rewrite (proj2 (count_frame_parts p g tk flag Hp)). lia. }
  rewrite !Hcount by (by intros [| | | | | | | | | | |[]| | | | | | | | | | |]).
  unfold before_detections, after_signal.
  destruct (process_detections _ _ _ _) as [pd [flag| | |]]; cbn [snd];
    by destruct (resize g), (record g), (quit_key (key tk)).
Qed.

Lemma iteration_falls_through g tk g' :
  (iteration g tk).2 = Ret g' → g' = g ∨ ∃ rest, g' = set_imgs_list rest g.
Proof.
  intros H. apply iteration_Ret in H as [H _].
  destruct (next_frame_cases g tk) as [[_ Hnf] | [_ Hnf]].
  - destruct (imgs_list g) as [|file rest]; rewrite Hnf in H; [done|].
    right. exists rest. by injection H as <-.
  - destruct (bound (cap g)), (cap_ret tk); rewrite Hnf in H; try done;
      left; by injection H as <-.
Qed.

Lemma iteration_counts g tk :
  globals_ok g = true →
  count is_infer (iteration g tk).1 =
    (count is_imread (iteration g tk).1 + count is_capread_ok (iteration g tk).1)%nat ∧
  count is_resize (iteration g tk).1 =
    (if resize g then count is_infer (iteration g tk).1 else 0)%nat ∧
  count is_recorder_write (iteration g tk).1 =
    (if record g then count is_imshow (iteration g tk).1 else 0)%nat ∧
  (count is_imshow (iteration g tk).1 ≤ count is_infer (iteration g tk).1)%nat.
Proof.
  intros Hok. rewrite iteration_unfold.
  destruct (next_frame_cases g tk) as [[Hk Hnf] | [Hk Hnf]].
  - destruct (imgs_list g) as [|file rest]; rewrite Hnf.
    + cbn. by destruct (resize g), (record g).
    + rewrite bind_Ret. cbn [fst].
      destruct (frame_body_counts (set_imgs_list rest g) tk)
        as (H1 & H2 & H3 & H4 & H5 & H6).
      cbn [resize record set_imgs_list labels min_thresh] in *.
      rewrite !count_app, H1, H2, H4, H3, H5, H6.
      destruct (resize g), (record g),
        ((process_detections (labels g) (min_thresh g) (boxes tk) false).2);
        cbn; lia.
  - assert (bound (cap g) = true) as Hc.
    { unfold globals_ok in Hok. repeat (apply andb_prop in Hok as [Hok ?]).
      apply Bool.eqb_prop in Hok. by rewrite Hok. }
    rewrite Hc in Hnf. destruct (cap_ret tk); rewrite Hnf.
    + rewrite bind_Ret. cbn [fst].
      destruct (frame_body_counts g tk) as (H1 & H2 & H3 & H4 & H5 & H6).
      rewrite !count_app, H1, H2, H4, H3, H5, H6.
      destruct (resize g), (record g),
        ((process_detections (labels g) (min_thresh g) (boxes tk) false).2);
        cbn; lia.
    + cbn. by destruct (resize g), (record g).
Qed.

Lemma loop_counts ticks : ∀ g,
  globals_ok g = true →
  count is_infer (loop g ticks).1 =
    (count is_imread (loop g ticks).1 + count is_capread_ok (loop g ticks).1)%nat ∧
  count is_resize (loop g ticks).1 =
    (if resize g then count is_infer (loop g ticks).1 else 0)%nat ∧
  count is_recorder_write (loop g ticks).1 =
    (if record g then count is_imshow (loop g ticks).1 else 0)%nat ∧
  (count is_imshow (loop g ticks).1 ≤ count is_infer (loop g ticks).1)%nat.
Proof.
  induction ticks as [|tk ticks IH]; intros g Hok.
  - cbn. by destruct (resize g), (record g).
  - cbn [loop]. destruct (iteration_counts g tk Hok) as (H1 & H2 & H3 & H4).
    pose proof (iteration_globals_ok g tk) as Hg.
    pose proof (iteration_falls_through g tk) as Hf.
    destruct (iteration g tk) as [ev [g1| | |]]; cbn [fst snd] in *; try done.
    destruct (IH g1 (Hg g1 eq_refl Hok)) as (I1 & I2 & I3 & I4).
    assert (resize g1 = resize g ∧ record g1 = record g) as [Hr1 Hr2]
      by (destruct (Hf g1 eq_refl) as [-> | [rest ->]]; done).
    rewrite Hr1, Hr2 in *. rewrite !count_app, H1, H2, H3, I1, I2, I3.
    destruct (resize g), (record g); lia.
Qed.

Lemma bind_forallb {A B} q (m : M A) (f : A → M B) :
  forallb q m.1 = true → (∀ a, forallb q (f a).1 = true) →
  forallb q (m ≫= f).1 = true.
Proof.
  intros Hm Hf. unfold mbind, M_bind.
  destruct m as [ev [a| | |]]; cbn [fst snd] in *; try done.
  by rewrite forallb_app, Hm, Hf.
Qed.

Lemma startup_events w a :
  forallb is_startup_event (startup w a).1 = true.
Proof.
  unfold startup.
  apply bind_forallb; [by destruct (serial_available w)|]. intros ard.
  apply bind_forallb.
  { unfold check_model. by destruct (path_exists w (arg_model a)). }
  intros _. apply bind_forallb; [done|]. intros _.
  apply bind_forallb.
  { unfold determine_input_type.
    destruct (path_isdir w (arg_source a)); [done|].
    destruct (path_isfile w (arg_source a)).
    - by destruct (str_in (splitext w (arg_source a)).2 img_ext_list),
                  (str_in (splitext w (arg_source a)).2 vid_ext_list).
    - destruct (Py.contains "usb" (arg_source a)); [|done].
      by destruct (Py.int_of_str (Py.slice_from 3 (arg_source a))). }
  intros [k i]. apply bind_forallb.
  { by rewrite handle_resolution_silent. }
  intros r. apply bind_forallb.
  { unfold recording_setup.
    by destruct (arg_record a), (is_cap_source k), (truthy (arg_resolution a)). }
  intros _. apply bind_forallb.
  { unfold open_source.
    by destruct k, i, (truthy (arg_resolution a)), r as [[]|]. }
  by intros [q c].
Qed.

Lemma run_frame_counts w a ticks g p :
  (startup w a).2 = Ret g →
  (∀ e, p e = true → is_frame_event e = true) →
  count p (run w a ticks).1 = count p (loop g ticks).1.
Proof.
  intros Hs Hp.
  assert (count p (startup w a).1 = 0%nat) as Hst.
  { apply (count_disjoint _ is_startup_event); [apply startup_events|].
    intros e He. destruct (p e) eqn:Hpe; [|done]. apply Hp in Hpe.
    by destruct e. }
  assert (∀ g', count p (cleanup g').1 = 0%nat) as Hcl.
  { intros g'. rewrite cleanup_resources. cbn [fst].
    apply (count_disjoint _ is_resource).
    - unfold released. by destruct (bound (cap g')), (record g'), (bound (arduino g')).
    - intros e He. destruct (p e) eqn:Hpe; [|done]. apply Hp in Hpe.
      by destruct e. }
  unfold run. rewrite Hs.
  destruct (loop g ticks) as [lev [g'|c|e|g']]; cbn [fst snd];
    rewrite ?count_app, Hst, ?Hcl; lia.
Qed.

(** The frames of a run.  After a start-up that reaches the loop, and
    whatever the collaborators answer afterwards, the detector is run once
    on every frame that was read (from the image queue or from the
    capture) and on nothing else; every frame it is run on was resized
    first when a resolution was given, and none is resized otherwise; every
    frame that is shown is written to the recorder once when recording is
    on, and nothing is written otherwise; and no frame is shown that the
    detector was not run on. *)
Theorem frames_accounting w a ticks g :
  (startup w a).2 = Ret g →
  count is_infer (run w a ticks).1 =
    (count is_imread (run w a ticks).1 + count is_capread_ok (run w a ticks).1)%nat ∧
  count is_resize (run w a ticks).1 =
    (if resize g then count is_infer (run w a ticks).1 else 0)%nat ∧
  count is_recorder_write (run w a ticks).1 =
    (if record g then count is_imshow (run w a ticks).1 else 0)%nat ∧
  (count is_imshow (run w a ticks).1 ≤ count is_infer (run w a ticks).1)%nat.
Proof.
  intros Hs.
  rewrite !(run_frame_counts w a ticks g _ Hs)
    by (by intros [| | | | | | | | | | |[]| | | | | | | | | | |]).
  apply loop_counts. by apply (startup_globals_ok w a).
Qed.

(** A witness: two frames of a recorded video, then its end. *)
Lemma frames_accounting_witness :
  count is_recorder_write
    (run example_world
       (example_args "best.pt" "road.mp4" (Some "640x480"%string) true)
       [example_tick true [] 0 (-1); example_tick true [] 0 (-1);
        example_tick false [] 0 (-1)]).1 =
  count is_imshow
    (run example_world
       (example_args "best.pt" "road.mp4" (Some "640x480"%string) true)
       [example_tick true [] 0 (-1); example_tick true [] 0 (-1);
        example_tick false [] 0 (-1)]).1.
Proof.
  exact (proj1 (proj2 (proj2
           (frames_accounting example_world
              (example_args "best.pt" "road.mp4" (Some "640x480"%string) true)
              [example_tick true [] 0 (-1); example_tick true [] 0 (-1);
               example_tick false [] 0 (-1)]
              {| arduino := Some {| is_open := true |}; min_thresh := 0.5%float;
                 labels := example_labels; source_type := video; usb_idx := None;
                 resize := true; res := Some (640, 480); record := true;
                 imgs_list := []; cap := Some (inl "road.mp4"%string) |}
              eq_refl)))).
Defined.

(** ** Runs to the end of the source *)

Lemma frame_body_clean g tk :
  clean g tk = true → (frame_body g tk).2 = Ret g.
Proof.
  unfold clean. intros H. apply andb_prop in H as [Hq Hwf].
  apply negb_true_iff in Hq.
  rewrite frame_body_shape, (process_detections_closed _ _ _ _ Hwf).
  cbn [snd]. by rewrite Hq.
Qed.

Lemma files_read_app a b : files_read (a ++ b) = files_read a ++ files_read b.
Proof. apply omap_app. Qed.

Lemma files_read_none tr : count is_imread tr = 0%nat → files_read tr = [].
Proof.
  induction tr as [|e tr IH]; [done|]. rewrite count_cons.
  destruct e; cbn; try done; intros H; apply IH; lia.
Qed.

Lemma loop_app pre : ∀ g g' ticks,
  (loop g pre).2 = Looping g' →
  loop g (pre ++ ticks) = ((loop g pre).1 ++ (loop g' ticks).1, (loop g' ticks).2).
Proof.
  induction pre as [|tk pre IH]; intros g g' ticks.
  - cbn. intros [= <-]. by destruct (loop g ticks).
  - cbn [loop app].
    destruct (iteration g tk) as [ev [g1| | |]]; cbn [fst snd]; try done.
    intros H. rewrite (IH g1 g' ticks H). cbn [fst snd].
    by rewrite app_assoc.
Qed.

Lemma iteration_image_clean g tk file rest :
  is_cap_source (source_type g) = false →
  imgs_list g = file :: rest →
  clean g tk = true →
  (iteration g tk).2 = Ret (set_imgs_list rest g) ∧
  files_read (iteration g tk).1 = [file] ∧
  count is_infer (iteration g tk).1 = 1%nat.
Proof.
  intros Hk Hq Hc. rewrite iteration_unfold.
  destruct (next_frame_cases g tk) as [[_ Hnf] | [Hk' _]]; [|congruence].
  rewrite Hq in Hnf. rewrite Hnf, bind_Ret. cbn [fst snd].
  destruct (frame_body_counts (set_imgs_list rest g) tk)
    as (Hi & _ & _ & _ & Hr & _).
  split; [by apply frame_body_clean|]. split.
  - rewrite files_read_app. cbn. by rewrite files_read_none.
  - by rewrite count_app, Hi.
Qed.

Lemma loop_drains_queue q : ∀ g ticks,
  is_cap_source (source_type g) = false →
  imgs_list g = q →
  (List.length q < List.length ticks)%nat →
  forallb (clean g) (firstn (List.length q) ticks) = true →
  (loop g ticks).2 = Exited 0 ∧ files_read (loop g ticks).1 = q ∧
  count is_infer (loop g ticks).1 = List.length q.
Proof.
  induction q as [|file rest IH]; intros g [|tk ticks] Hk Hq Hlen Hclean;
    cbn [List.length] in Hlen; try lia.
  - cbn [loop]. rewrite iteration_unfold.
    destruct (next_frame_cases g tk) as [[_ Hnf] | [Hk' _]]; [|congruence].
    rewrite Hq in Hnf. by rewrite Hnf.
  - cbn [List.length firstn forallb] in Hclean.
    apply andb_prop in Hclean as [Hc Hclean].
    destruct (iteration_image_clean g tk file rest Hk Hq Hc) as (Ho & Hf & Hi).
    cbn [loop]. destruct (iteration g tk) as [ev o]. cbn [fst snd] in *.
    subst o. cbn [fst snd].
    destruct (IH (set_imgs_list rest g) ticks Hk eq_refl ltac:(lia) Hclean)
      as (-> & Hr & Hn).
    split; [done|]. split; [by rewrite files_read_app, Hf, Hr|].
    rewrite count_app, Hi, Hn. done.
Qed.

(** A run over images.  After a start-up on an image or a folder, if
    for as many iterations as there are queued files no quit key is pressed
    and the detector reports boxes as the script expects them, then the
    script reads every queued file exactly once, in queue order, and on the
    next iteration ends with exit status 0.  For a single image the queue
    is that image alone. *)
Theorem image_run_reads_queue w a g ticks :
  (startup w a).2 = Ret g →
  is_cap_source (source_type g) = false →
  (List.length (imgs_list g) < List.length ticks)%nat →
  forallb (clean g) (firstn (List.length (imgs_list g)) ticks) = true →
  (run w a ticks).2 = ExitStatus 0 ∧
  files_read (run w a ticks).1 = imgs_list g ∧
  count is_infer (run w a ticks).1 = List.length (imgs_list g) ∧
  (source_type g = image → imgs_list g = [arg_source a]).
Proof.
  intros Hs Hk Hlen Hclean.
  destruct (loop_drains_queue (imgs_list g) g ticks Hk eq_refl Hlen Hclean)
    as (Hend & Hread & Hinf).
  assert (files_read (startup w a).1 = []) as Hst.
  { apply files_read_none, (count_disjoint _ is_startup_event);
      [apply startup_events | by intros []]. }
  split; [|split; [|split]].
  - unfold run. by rewrite Hs, Hend.
  - unfold run. rewrite Hs, Hend. cbn [fst]. by rewrite files_read_app, Hst, Hread.
  - by rewrite (run_frame_counts w a ticks g _ Hs) by (by intros []).
  - intros Himg. destruct (startup_inv w a g Hs) as (_ & _ & _ & _ & Hos & _).
    rewrite Himg in Hos. cbn in Hos. by injection Hos as <- _.
Qed.

(** A witness: the folder of the example machine, three quiet ticks. *)
Lemma image_run_reads_queue_witness :
  (run example_world (example_args "best.pt" "imgs" None false)
     [example_tick true [] 0 (-1); example_tick true [example_box 1 0.75] 0 (-1);
      example_tick true [] 0 (-1)]).2 = ExitStatus 0 ∧
  files_read
    (run example_world (example_args "best.pt" "imgs" None false)
       [example_tick true [] 0 (-1); example_tick true [example_box 1 0.75] 0 (-1);
        example_tick true [] 0 (-1)]).1 = ["imgs/a.jpg"; "imgs/c.png"]%string.
Proof.
  destruct (image_run_reads_queue example_world
              (example_args "best.pt" "imgs" None false)
              (example_globals folder ["imgs/a.jpg"; "imgs/c.png"]%string)
              [example_tick true [] 0 (-1);
               example_tick true [example_box 1 0.75] 0 (-1);
               example_tick true [] 0 (-1)]
              eq_refl eq_refl (le_n 3) eq_refl) as (H1 & H2 & _).
  exact (conj H1 H2).
Defined.

Lemma iteration_capture_clean g tk :
  globals_ok g = true →
  is_cap_source (source_type g) = true →
  cap_ret tk = true →
  clean g tk = true →
  (iteration g tk).2 = Ret g ∧ count is_infer (iteration g tk).1 = 1%nat ∧
  count is_imshow (iteration g tk).1 = 1%nat.
Proof.
  intros Hok Hk Hret Hc. rewrite iteration_unfold.
  destruct (next_frame_cases g tk) as [[Hk' _] | [_ Hnf]]; [congruence|].
  assert (bound (cap g) = true) as Hcap.
  { unfold globals_ok in Hok. repeat (apply andb_prop in Hok as [Hok ?]).
    apply Bool.eqb_prop in Hok. by rewrite Hok. }
  rewrite Hcap, Hret in Hnf. rewrite Hnf, bind_Ret. cbn [fst snd].
  destruct (frame_body_counts g tk) as (Hi & _ & Hs & _).
  split; [by apply frame_body_clean|].
  rewrite !count_app, Hi, Hs.
  unfold clean in Hc. apply andb_prop in Hc as [_ Hwf].
  by rewrite (process_detections_closed _ _ _ _ Hwf).
Qed.

Lemma loop_capture_clean pre : ∀ g,
  globals_ok g = true →
  is_cap_source (source_type g) = true →
  forallb (λ tk, cap_ret tk && clean g tk) pre = true →
  (loop g pre).2 = Looping g ∧
  count is_infer (loop g pre).1 = List.length pre ∧
  count is_imshow (loop g pre).1 = List.length pre.
Proof.
  induction pre as [|tk pre IH]; intros g Hok Hk Hpre; [done|].
  cbn [forallb] in Hpre. apply andb_prop in Hpre as [Htk Hpre].
  apply andb_prop in Htk as [Hret Hc].
  destruct (iteration_capture_clean g tk Hok Hk Hret Hc) as (Ho & Hi & Hs).
  destruct (IH g Hok Hk Hpre) as (Hl & Hli & Hls).
  cbn [loop]. destruct (iteration g tk) as [ev o]. cbn [fst snd] in *. subst o.
  cbn [fst snd]. by rewrite !count_app, Hi, Hs, Hli, Hls, Hl.
Qed.

(** A run over a video or a camera.  After a start-up on such a
    source, let the capture deliver a frame in each of the first [n]
    iterations, with no quit key and with boxes as the script expects
    them.  If the capture then has no frame, the run ends with exit status
    0 after running the detector on, and showing, exactly those [n]
    frames.  If instead the capture has one more frame and q or Q is
    pressed while it is shown, the run ends with exit status 0 after [n+1]
    frames: the frame during which the key is pressed is still processed
    and shown. *)
Theorem capture_run_ends w a g pre last rest :
  (startup w a).2 = Ret g →
  is_cap_source (source_type g) = true →
  forallb (λ tk, cap_ret tk && clean g tk) pre = true →
  (cap_ret last = false →
   (run w a (pre ++ last :: rest)).2 = ExitStatus 0 ∧
   count is_infer (run w a (pre ++ last :: rest)).1 = List.length pre ∧
   count is_imshow (run w a (pre ++ last :: rest)).1 = List.length pre) ∧
  (cap_ret last = true → quit_key (key last) = true →
   forallb (well_formed (labels g) (min_thresh g)) (boxes last) = true →
   (run w a (pre ++ last :: rest)).2 = ExitStatus 0 ∧
   count is_infer (run w a (pre ++ last :: rest)).1 = S (List.length pre) ∧
   count is_imshow (run w a (pre ++ last :: rest)).1 = S (List.length pre)).
Proof.
  intros Hs Hk Hpre.
  pose proof (startup_globals_ok w a g Hs) as Hok.
  destruct (loop_capture_clean pre g Hok Hk Hpre) as (Hl & Hli & Hls).
  assert (bound (cap g) = true) as Hcap.
  { unfold globals_ok in Hok. repeat (apply andb_prop in Hok as [Hok ?]).
    apply Bool.eqb_prop in Hok. by rewrite Hok. }
  assert (∀ ev o,
    iteration g last = (ev, o) → o = Break →
    (run w a (pre ++ last :: rest)).2 = ExitStatus 0 ∧
    count is_infer (run w a (pre ++ last :: rest)).1 =
      (List.length pre + count is_infer ev)%nat ∧
    count is_imshow (run w a (pre ++ last :: rest)).1 =
      (List.length pre + count is_imshow ev)%nat) as Hend.
  { intros ev o Hit ->.
    rewrite !(run_frame_counts w a _ g _ Hs) by (by intros []).
    unfold run. rewrite Hs, (loop_app pre g g _ Hl). cbn [loop].
    rewrite Hit. cbn [fst snd]. rewrite cleanup_resources. cbn [snd status_of].
    by rewrite !count_app, Hli, Hls. }
  split.
  - intros Hret.
    destruct (next_frame_cases g last) as [[Hk' _] | [_ Hnf]]; [congruence|].
    rewrite Hcap, Hret in Hnf.
    destruct (Hend [ECapRead false; EPrint "End of video/camera stream."] Break)
      as (H1 & H2 & H3); [by rewrite iteration_unfold, Hnf|done|].
    rewrite H1, H2, H3. cbn. by rewrite !Nat.add_0_r.
  - intros Hret Hq Hwf.
    destruct (next_frame_cases g last) as [[Hk' _] | [_ Hnf]]; [congruence|].
    rewrite Hcap, Hret in Hnf.
    destruct (frame_body_counts g last) as (Hi & _ & Hsh & _).
    rewrite (process_detections_closed _ _ _ _ Hwf) in Hsh. cbn [snd] in Hsh.
    assert ((frame_body g last).2 = Break) as Hb.
    { rewrite frame_body_shape, (process_detections_closed _ _ _ _ Hwf).
      cbn [snd]. by rewrite Hq. }
    destruct (frame_body g last) as [fb o] eqn:Hfb. cbn [fst snd] in *. subst o.
    destruct (Hend ([ECapRead true] ++ fb) Break) as (H1 & H2 & H3);
      [by rewrite iteration_unfold, Hnf, bind_Ret, Hfb|done|].
    rewrite H1, H2, H3, !count_app, Hi, Hsh. cbn. split; [done|]. lia.
Qed.

(** A witness: a video of two frames. *)
Lemma capture_run_ends_witness :
  (run example_world (example_args "best.pt" "road.mp4" None false)
     ([example_tick true [] 0 (-1); example_tick true [example_box 1 0.75] 0 (-1)]
      ++ example_tick false [] 0 (-1) :: [])).2 = ExitStatus 0 ∧
  count is_infer
    (run example_world (example_args "best.pt" "road.mp4" None false)
       ([example_tick true [] 0 (-1); example_tick true [example_box 1 0.75] 0 (-1)]
        ++ example_tick false [] 0 (-1) :: [])).1 = 2%nat ∧
  count is_imshow
    (run example_world (example_args "best.pt" "road.mp4" None false)
       ([example_tick true [] 0 (-1); example_tick true [example_box 1 0.75] 0 (-1)]
        ++ example_tick false [] 0 (-1) :: [])).1 = 2%nat.
Proof.
  exact (proj1 (capture_run_ends example_world
                  (example_args "best.pt" "road.mp4" None false)
                  {| arduino := Some {| is_open := true |}; min_thresh := 0.5%float;
                     labels := example_labels; source_type := video;
                     usb_idx := None; resize := false; res := None;
                     record := false; imgs_list := [];
                     cap := Some (inl "road.mp4"%string) |}
                  [example_tick true [] 0 (-1);
                   example_tick true [example_box 1 0.75] 0 (-1)]
                  (example_tick false [] 0 (-1)) []
                  eq_refl eq_refl eq_refl) eq_refl).
Defined.

(** ** A class index without a name *)

Lemma bind_assoc_M {A B C} (m : M A) (f : A → M B) (h : B → M C) :
  (m ≫= f) ≫= h = m ≫= (λ a, f a ≫= h).
Proof.
  destruct m as [ev [a| | |]]; try reflexivity.
  unfold mbind, M_bind. cbn [fst snd].
  destruct (f a) as [ev1 [b| | |]]; cbn [fst snd]; try reflexivity.
  by rewrite app_assoc.
Qed.

Lemma bind_nil_M {A B} (a : A) (f : A → M B) : (([], Ret a) : M A) ≫= f = f a.
Proof. unfold mbind, M_bind. cbn [fst snd app]. by destruct (f a). Qed.

Lemma process_detections_app labels min_thresh ds1 : ∀ ds2 flag,
  process_detections labels min_thresh (ds1 ++ ds2) flag =
    (flag1 ← process_detections labels min_thresh ds1 flag;
     process_detections labels min_thresh ds2 flag1).
Proof.
  induction ds1 as [|d ds1 IH]; intros ds2 flag.
  - cbn [app process_detections]. unfold mret, M_ret. by rewrite bind_nil_M.
  - cbn [app process_detections]. rewrite bind_assoc_M.
    destruct (process_detection labels min_thresh d flag) as [ev [f| | |]];
      try reflexivity.
    by rewrite !bind_Ret, IH.
Qed.

(** The look-up of line 142 comes before the threshold test of line 145. *)
Lemma process_detection_unknown labels min_thresh d flag :
  labels !! classidx d = None →
  process_detection labels min_thresh d flag = ([], Raise KeyError).
Proof.
  intros H. unfold process_detection, lookup_label. by rewrite H.
Qed.

Lemma process_detections_unknown labels min_thresh ds1 d ds2 flag :
  forallb (well_formed labels min_thresh) ds1 = true →
  labels !! classidx d = None →
  process_detections labels min_thresh (ds1 ++ d :: ds2) flag =
    (flat_map (overlay labels) (List.filter (passes min_thresh) ds1),
     Raise KeyError).
Proof.
  intros Hwf Hd.
  rewrite process_detections_app, (process_detections_closed _ _ _ _ Hwf).
  rewrite bind_Ret. cbn [process_detections].
  rewrite (process_detection_unknown _ _ _ _ Hd).
  unfold mbind, M_bind. cbn [fst snd]. by rewrite app_nil_r.
Qed.

Lemma next_frame_keeps g tk g1 :
  (next_frame g tk).2 = Ret g1 →
  labels g1 = labels g ∧ min_thresh g1 = min_thresh g ∧
  resize g1 = resize g ∧ res g1 = res g.
Proof.
  destruct (next_frame_cases g tk) as [[_ Hnf] | [_ Hnf]].
  - destruct (imgs_list g) as [|file rest]; rewrite Hnf; [done|].
    by intros [= <-].
  - destruct (bound (cap g)), (cap_ret tk); rewrite Hnf; try done;
      by intros [= <-].
Qed.

Lemma next_frame_no_imshow g tk :
  count is_imshow (next_frame g tk).1 = 0%nat.
Proof.
  unfold next_frame.
  destruct (source_type g), (imgs_list g), (bound (cap g)), (cap_ret tk);
    reflexivity.
Qed.

(** A detection whose class index has no name in [model.names] ends the
    iteration with [KeyError], whatever its confidence: the boxes before
    it are drawn, but the frame is not shown and no signal is sent, even
    when one of the boxes before it was an ambulance. *)
Theorem unknown_class_raises (g g1 : globals) (tk : tick)
    (ds1 ds2 : list detection) (d : detection) :
  (next_frame g tk).2 = Ret g1 →
  boxes tk = ds1 ++ d :: ds2 →
  forallb (well_formed (labels g) (min_thresh g)) ds1 = true →
  labels g !! classidx d = None →
  iteration g tk =
    ((next_frame g tk).1 ++ before_detections g1 ++
     flat_map (overlay (labels g)) (List.filter (passes (min_thresh g)) ds1),
     Raise KeyError) ∧
  count is_call (iteration g tk).1 = 0%nat ∧
  count is_imshow (iteration g tk).1 = 0%nat.
Proof.
  intros Hnf Hb Hwf Hd.
  destruct (next_frame_keeps g tk g1 Hnf) as (Hl & Ht & _).
  pose proof (next_frame_quiet g tk) as Hq.
  pose proof (next_frame_no_imshow g tk) as Hi.
  pose proof (process_detections_quiet (labels g) (min_thresh g)
                (ds1 ++ d :: ds2) false) as Hpq.
  pose proof (process_detections_no_imshow (labels g) (min_thresh g)
                (ds1 ++ d :: ds2) false) as Hpi.
  rewrite (process_detections_unknown _ _ _ _ _ _ Hwf Hd) in Hpq, Hpi.
  cbn [fst] in Hpq, Hpi.
  assert (iteration g tk =
    ((next_frame g tk).1 ++ before_detections g1 ++
     flat_map (overlay (labels g)) (List.filter (passes (min_thresh g)) ds1),
     Raise KeyError)) as ->.
  { rewrite iteration_unfold.
    destruct (next_frame g tk) as [nf o]. cbn [fst snd] in *. subst o.
    rewrite bind_Ret, frame_body_shape, Hl, Ht, Hb.
    by rewrite (process_detections_unknown _ _ _ _ _ _ Hwf Hd). }
  cbn [fst]. split; [done|].
  rewrite !count_app, Hq, Hi, Hpq, Hpi.
  unfold before_detections. by destruct (resize g1).
Qed.

(** A witness: an ambulance above the threshold, then a box of class 7,
    which has no name, below the threshold. *)
Lemma unknown_class_raises_witness :
  iteration (example_globals image ["road.jpg"%string])
    (example_tick true [example_box 1 0.9; example_box 7 0.1] 0 (-1)) =
    ([EImread "road.jpg"; EInfer] ++
     overlay example_labels (example_box 1 0.9),
     Raise KeyError) ∧
  count is_call
    (iteration (example_globals image ["road.jpg"%string])
       (example_tick true [example_box 1 0.9; example_box 7 0.1] 0 (-1))).1
    = 0%nat.
Proof.
  destruct (unknown_class_raises
              (example_globals image ["road.jpg"%string])
              (example_globals image [])
              (example_tick true [example_box 1 0.9; example_box 7 0.1] 0 (-1))
              [example_box 1 0.9] [] (example_box 7 0.1)
              eq_refl eq_refl eq_refl eq_refl) as (H1 & H2 & _).
  split; [|exact H2].
  rewrite H1. vm_compute. reflexivity.
Defined.

(** ** An exception in the loop *)

Lemma iteration_raise_kinds g tk e :
  (iteration g tk).2 = Raise e →
  e = KeyError ∨ e = OverflowError ∨ e = ValueError.
Proof.
  rewrite iteration_unfold.
  destruct (next_frame_cases g tk) as [[_ Hnf] | [_ Hnf]].
  - destruct (imgs_list g) as [|file rest]; rewrite Hnf; [done|].
    rewrite bind_Ret. cbn [snd].
    pose proof (frame_body_endings (set_imgs_list rest g) tk) as Hb.
    destruct (frame_body _ tk) as [tr [g'| | |]]; cbn [snd] in *; try done.
    intros [= <-]. apply Hb.
  - destruct (bound (cap g)), (cap_ret tk); rewrite Hnf; try done.
    all: rewrite bind_Ret; cbn [snd];
      pose proof (frame_body_endings g tk) as Hb;
      destruct (frame_body g tk) as [tr [g'| | |]]; cbn [snd] in *; try done;
      intros [= <-]; apply Hb.
Qed.

Lemma iteration_raise_counts g tk e :
  (iteration g tk).2 = Raise e →
  count is_infer (iteration g tk).1 = 1%nat ∧
  count is_imshow (iteration g tk).1 = 0%nat.
Proof.
  rewrite iteration_unfold.
  assert (∀ g1 ev, (frame_body g1 tk).2 = Raise e →
            (∀ p, p = is_infer ∨ p = is_imshow → count p ev = 0%nat) →
            count is_infer (ev ++ (frame_body g1 tk).1) = 1%nat ∧
            count is_imshow (ev ++ (frame_body g1 tk).1) = 0%nat) as Hfb.
  { intros g1 ev Hr Hev.
    destruct (frame_body_counts g1 tk) as (H1 & _ & H3 & _).
    rewrite !count_app, H1, H3, !Hev by auto.
    rewrite frame_body_shape in Hr.
    destruct (process_detections _ _ _ _) as [pd [flag| | |]];
      cbn [snd] in Hr; try done.
    by destruct (quit_key (key tk)). }
  destruct (next_frame_cases g tk) as [[_ Hnf] | [_ Hnf]].
  - destruct (imgs_list g) as [|file rest]; rewrite Hnf; [done|].
    rewrite bind_Ret. cbn [fst snd]. intros Hr. apply Hfb; [done|].
    by intros p [-> | ->].
  - destruct (bound (cap g)), (cap_ret tk); rewrite Hnf; try done;
      rewrite bind_Ret; cbn [fst snd]; intros Hr; apply Hfb; try done;
      by intros p [-> | ->].
Qed.

Lemma iteration_ret_counts g tk g' :
  (iteration g tk).2 = Ret g' →
  count is_infer (iteration g tk).1 = 1%nat ∧
  count is_imshow (iteration g tk).1 = 1%nat.
Proof.
  rewrite iteration_unfold.
  assert (∀ g1 ev, (frame_body g1 tk).2 = Ret g' →
            (∀ p, p = is_infer ∨ p = is_imshow → count p ev = 0%nat) →
            count is_infer (ev ++ (frame_body g1 tk).1) = 1%nat ∧
            count is_imshow (ev ++ (frame_body g1 tk).1) = 1%nat) as Hfb.
  { intros g1 ev Hr Hev.
    destruct (frame_body_counts g1 tk) as (H1 & _ & H3 & _).
    rewrite !count_app, H1, H3, !Hev by auto.
    rewrite frame_body_shape in Hr.
    by destruct (process_detections _ _ _ _) as [pd [flag| | |]]. }
  destruct (next_frame_cases g tk) as [[_ Hnf] | [_ Hnf]].
  - destruct (imgs_list g) as [|file rest]; rewrite Hnf; [done|].
    rewrite bind_Ret. cbn [fst snd]. intros Hr. apply Hfb; [done|].
    by intros p [-> | ->].
  - destruct (bound (cap g)), (cap_ret tk); rewrite Hnf; try done;
      rewrite bind_Ret; cbn [fst snd]; intros Hr; apply Hfb; try done;
      by intros p [-> | ->].
Qed.

Lemma loop_raised ticks : ∀ g e,
  (loop g ticks).2 = Raised e →
  (e = KeyError ∨ e = OverflowError ∨ e = ValueError) ∧
  count is_infer (loop g ticks).1 = S (count is_imshow (loop g ticks).1).
Proof.
  induction ticks as [|tk ticks IH]; intros g e; [done|].
  cbn [loop].
  pose proof (iteration_raise_kinds g tk) as Hk.
  pose proof (iteration_raise_counts g tk) as Hc.
  pose proof (iteration_ret_counts g tk) as Hr.
  destruct (iteration g tk) as [ev [g1| | |]]; cbn [fst snd] in *; try done.
  - intros Hl. destruct (IH g1 e Hl) as [He Hn]. split; [done|].
    destruct (Hr g1 eq_refl) as [H1 H2]. rewrite !count_app, H1, H2, Hn. lia.
  - intros [= <-]. split; [by apply Hk|].
    destruct (Hc e0 eq_refl) as [-> ->]. done.
Qed.

(** An exception that leaves the loop ends the process with status 1; it
    is a [KeyError], an [OverflowError] or a [ValueError] of the detection
    loop; the frame it happened on was inferred but not shown; and nothing
    that start-up opened is released. *)
Theorem loop_exception_releases_nothing w a ticks g e :
  (startup w a).2 = Ret g →
  (loop g ticks).2 = Raised e →
  (run w a ticks).2 = ExitStatus 1 ∧
  (e = KeyError ∨ e = OverflowError ∨ e = ValueError) ∧
  resources (run w a ticks).1 = opened g ∧
  count is_infer (run w a ticks).1 = S (count is_imshow (run w a ticks).1).
Proof.
  intros Hs Hl. destruct (loop_raised ticks g e Hl) as [He Hn].
  split; [|split; [done|split]].
  - unfold run. by rewrite Hs, Hl.
  - unfold run. rewrite Hs, Hl. cbn [fst snd].
    rewrite resources_app, (startup_resources w a g Hs).
    rewrite (resources_none _ (loop_no_resource ticks g)). apply app_nil_r.
  - rewrite !(run_frame_counts w a ticks g _ Hs)
      by (by intros [| | | | | | | | | | |[]| | | | | | | | | | |]).
    done.
Qed.

(** A witness: a video whose second frame holds a box of class 7. *)
Lemma loop_exception_releases_nothing_witness :
  (run example_world (example_args "best.pt" "road.mp4" None false)
     [example_tick true [] 0 (-1);
      example_tick true [example_box 7 0.9] 0 (-1)]).2 = ExitStatus 1 ∧
  resources
    (run example_world (example_args "best.pt" "road.mp4" None false)
       [example_tick true [] 0 (-1);
        example_tick true [example_box 7 0.9] 0 (-1)]).1 =
    [ESerialOpen "COM11" 9600 1; ECapOpen (inl "road.mp4"%string)].
Proof.
  destruct (loop_exception_releases_nothing example_world
              (example_args "best.pt" "road.mp4" None false)
              [example_tick true [] 0 (-1);
               example_tick true [example_box 7 0.9] 0 (-1)]
              {| arduino := Some {| is_open := true |}; min_thresh := 0.5%float;
                 labels := example_labels; source_type := video; usb_idx := None;
                 resize := false; res := None; record := false; imgs_list := [];
                 cap := Some (inl "road.mp4"%string) |}
              KeyError eq_refl eq_refl) as (H1 & _ & H2 & _).
  split; [exact H1 | exact H2].
Defined.

(** ** How start-up ends *)

Lemma int_of_str_outcome s :
  match Py.int_of_str s with
  | Ret _ => True
  | Raise e => e = ValueError
  | _ => False
  end.
Proof.
  unfold Py.int_of_str.
  by destruct (match Py.strip _ with [] => _ | _ => _ end).
Qed.

Lemma determine_input_type_outcome w s :
  match (determine_input_type w s).2 with
  | Ret _ => True
  | Exit code => code = 0
  | Raise e => e = ValueError
  | Break => False
  end.
Proof.
  unfold determine_input_type.
  destruct (path_isdir w s); [done|].
  destruct (path_isfile w s).
  - by destruct (str_in (splitext w s).2 img_ext_list),
               (str_in (splitext w s).2 vid_ext_list).
  - destruct (Py.contains "usb" s); [|done].
    pose proof (int_of_str_outcome (Py.slice_from 3 s)) as H.
    by destruct (Py.int_of_str (Py.slice_from 3 s)).
Qed.

Lemma handle_resolution_outcome user_res :
  match (handle_resolution user_res).2 with
  | Ret _ => True
  | Raise e => e = ValueError
  | _ => False
  end.
Proof.
  unfold handle_resolution. destruct (truthy user_res); [|done].
  unfold parse_resolution.
  destruct (Py.split_on _ _) as [|x [|y [|z l]]]; try done.
  - pose proof (int_of_str_outcome x). by destruct (Py.int_of_str x).
  - pose proof (int_of_str_outcome x). pose proof (int_of_str_outcome y).
    by destruct (Py.int_of_str x), (Py.int_of_str y).
  - pose proof (int_of_str_outcome x). by destruct (Py.int_of_str x).
Qed.

Lemma recording_setup_outcome record k user_res r :
  match (recording_setup record k user_res r).2 with
  | Ret _ => True
  | Exit code => code = 0
  | _ => False
  end.
Proof.
  unfold recording_setup.
  by destruct record, (is_cap_source k), (truthy user_res).
Qed.

Lemma recording_setup_failed record k user_res r code :
  (recording_setup record k user_res r).2 = Exit code →
  resources (recording_setup record k user_res r).1 = [].
Proof.
  unfold recording_setup.
  by destruct record, (is_cap_source k), (truthy user_res).
Qed.

Lemma init_serial_resources w :
  resources (init_serial (serial_available w)).1 = port_opened w.
Proof. unfold port_opened. by destruct (serial_available w). Qed.

(** Start-up reaches the loop, or leaves through [sys.exit(0)], or lets a
    [ValueError] of [int] escape, from the camera index or from the
    resolution.  When it does not reach the loop the process ends there,
    with status 0 or 1, whatever the collaborators would have answered;
    neither the recorder nor a capture was opened, and the serial port,
    when [init_serial] could open it, is not closed. *)
Theorem startup_endings (w : world) (a : args) (ticks : list tick) :
  match (startup w a).2 with
  | Ret g => resources (startup w a).1 = opened g
  | Exit code =>
      code = 0 ∧ run w a ticks = ((startup w a).1, ExitStatus 0) ∧
      resources (startup w a).1 = port_opened w
  | Raise e =>
      e = ValueError ∧ run w a ticks = ((startup w a).1, ExitStatus 1) ∧
      resources (startup w a).1 = port_opened w ∧
      ((determine_input_type w (arg_source a)).2 = Raise ValueError ∨
       (handle_resolution (arg_resolution a)).2 = Raise ValueError)
  | Break => False
  end.
Proof.
  pose proof (startup_resources w a) as Hres.
  pose proof (run_without_loop w a ticks) as Hrun.
  destruct (init_serial_returns (serial_available w)) as (ev0 & Hinit).
  pose proof (init_serial_resources w) as Hport. rewrite Hinit in Hport.
  cbn [fst] in Hport.
  pose proof (determine_input_type_outcome w (arg_source a)) as Hd.
  pose proof (determine_input_type_no_resource w (arg_source a)) as Hdr.
  pose proof (handle_resolution_outcome (arg_resolution a)) as Hh.
  pose proof (handle_resolution_silent (arg_resolution a)) as Hhs.
  unfold startup, check_model in *. rewrite Hinit in *.
  destruct (path_exists w (arg_model a)).
  2:{ unfold mbind, M_bind, print, sys_exit in *. cbn [fst snd emit app] in *.
      rewrite Hrun by done. repeat split.
      by rewrite resources_app, Hport, app_nil_r. }
  unfold mbind, M_bind in *. cbn [fst snd mret M_ret emit app] in *.
  destruct (determine_input_type w (arg_source a)) as [ev1 [[k i]| | |]];
    cbn [fst snd] in *; try done.
  2:{ subst code. rewrite Hrun by done. repeat split.
      rewrite resources_app, Hport, resources_skip, Hdr by done.
      by rewrite app_nil_r. }
  2:{ subst e. rewrite Hrun by done. repeat split; [|by left].
      rewrite resources_app, Hport, resources_skip, Hdr by done.
      by rewrite app_nil_r. }
  destruct (handle_resolution (arg_resolution a)) as [ev2 [r| | |]];
    cbn [fst snd] in *; try done.
  2:{ subst e ev2. rewrite Hrun by done. repeat split; [|by right].
      rewrite resources_app, Hport, resources_skip, resources_app, Hdr by done.
      by rewrite !app_nil_r. }
  pose proof (recording_setup_outcome (arg_record a) k (arg_resolution a) r) as Hr.
  pose proof (recording_setup_failed (arg_record a) k (arg_resolution a) r) as Hrf.
  destruct (recording_setup (arg_record a) k (arg_resolution a) r)
    as [ev3 [[]| | |]]; cbn [fst snd] in *; try done.
  2:{ subst code ev2. rewrite Hrun by done. repeat split.
      rewrite resources_app, Hport, resources_skip, !resources_app, Hdr by done.
      rewrite (Hrf 0 eq_refl). by rewrite !app_nil_r. }
  assert (∃ q c, (open_source w k i (arg_source a) (arg_resolution a) r).2
                 = Ret (q, c)) as (q & c & Hos).
  { unfold open_source.
    destruct k, i, (truthy (arg_resolution a)), r as [[]|]; by eexists _, _. }
  destruct (open_source w k i (arg_source a) (arg_resolution a) r)
    as [ev4 o4]; cbn [fst snd] in *. subst o4. cbn [fst snd] in *.
  by apply Hres.
Qed.

(** ** The retry loop, event by event *)

Lemma refusals_bound wr n : ∀ attempt, (refusals wr attempt n ≤ n)%nat.
Proof.
  induction n as [|n IH]; intros attempt; [done|].
  cbn [refusals]. destruct (wr attempt); [|lia].
  specialize (IH (S attempt)). lia.
Qed.

Lemma send_attempts_trace wr signal n : ∀ attempt,
  (send_attempts wr signal attempt n).1 =
    flat_map (failed_round signal) (seq attempt (refusals wr attempt n)) ++
    (if (refusals wr attempt n <? n)%nat then accepted_round signal else []).
Proof.
  induction n as [|n IH]; intros attempt; [done|].
  cbn [refusals]. destruct (wr attempt) as [e|] eqn:H.
  - rewrite (send_attempts_fail _ _ _ _ _ H). cbn [fst seq flat_map].
    by rewrite IH, <- app_assoc.
  - by rewrite (send_attempts_ok _ _ _ _ H).
Qed.

Lemma count_failed_rounds signal l :
  count is_sleep (flat_map (failed_round signal) l) = List.length l ∧
  count is_write (flat_map (failed_round signal) l) = List.length l ∧
  count is_write_ok (flat_map (failed_round signal) l) = 0%nat.
Proof.
  induction l as [|i l (IH1 & IH2 & IH3)]; [done|].
  cbn [flat_map]. rewrite !count_app, IH1, IH2, IH3. done.
Qed.

(** With an open port and any number of retries, a call of
    [send_signal_to_arduino] performs one failed round (the refused write,
    its diagnostic numbered from 1, a sleep of one second) for each write
    refused before the first accepted one, and then the accepted write
    with its confirmation; when all [retries] writes are refused it ends
    after the last sleep, with no further message.  So the call costs as
    many seconds as there were refusals, at most [retries]. *)
Theorem send_signal_exact_trace (arduino : option serial) (wr : nat → option exn)
    (signal : string) (retries : nat) :
  connected arduino = true →
  send_signal_to_arduino arduino wr signal retries =
    (ECallSendSignal signal ::
     flat_map (failed_round signal) (seq 0 (refusals wr 0 retries)) ++
     (if (refusals wr 0 retries <? retries)%nat
      then accepted_round signal else []),
     Ret tt) ∧
  (refusals wr 0 retries ≤ retries)%nat ∧
  count is_sleep (send_signal_to_arduino arduino wr signal retries).1 =
    refusals wr 0 retries ∧
  count is_write (send_signal_to_arduino arduino wr signal retries).1 =
    Nat.min retries (S (refusals wr 0 retries)).
Proof.
  intros Hopen.
  pose proof (refusals_bound wr retries 0) as Hb.
  pose proof (send_signal_returns arduino wr signal retries) as Hr.
  pose proof (send_signal_trace_open arduino wr signal retries Hopen) as Ht.
  rewrite send_attempts_trace in Ht.
  destruct (send_signal_to_arduino arduino wr signal retries) as [tr o].
  cbn [fst snd] in *. subst tr o. split; [done|]. split; [done|].
  destruct (count_failed_rounds signal (seq 0 (refusals wr 0 retries)))
    as (H1 & H2 & _).
  rewrite length_seq in H1, H2.
  rewrite !count_cons, !count_app, H1, H2. cbn [is_sleep is_write].
  destruct (Nat.ltb_spec (refusals wr 0 retries) retries); cbn; lia.
Qed.

(** A witness: five retries on a port that refuses every write. *)
Lemma send_signal_exact_trace_witness :
  send_signal_to_arduino (Some {| is_open := true |})
    (λ _, Some SerialException) "A" 5 =
    (ECallSendSignal "A" :: flat_map (failed_round "A") (seq 0 5), Ret tt) ∧
  count is_sleep
    (send_signal_to_arduino (Some {| is_open := true |})
       (λ _, Some SerialException) "A" 5).1 = 5%nat.
Proof.
  destruct (send_signal_exact_trace (Some {| is_open := true |})
              (λ _, Some SerialException) "A" 5 eq_refl) as (H1 & _ & H2 & _).
  split; [|exact H2].
  rewrite H1. vm_compute. reflexivity.
Defined.

(** ** The files that are read *)

Lemma slice_concat n : ∀ p, Py.slice_to n p +:+ Py.slice_from n p = p.
Proof.
  induction n as [|n IH]; intros [|c p]; try reflexivity.
  cbn [Py.slice_to Py.slice_from].
  change (String c (Py.slice_to n p) +:+ Py.slice_from n p)
    with (String c (Py.slice_to n p +:+ Py.slice_from n p)).
  by rewrite IH.
Qed.

Lemma append_empty_r (p : string) : p +:+ EmptyString = p.
Proof.
  induction p as [|c p IH]; [done|].
  change (String c p +:+ EmptyString) with (String c (p +:+ EmptyString)).
  by rewrite IH.
Qed.

(** [root + ext == p], as the documentation of [os.path.splitext] has it. *)
Lemma splitext_concat w p : (splitext w p).1 +:+ (splitext w p).2 = p.
Proof.
  unfold splitext, Py._splitext.
  destruct (nt w); cbv zeta;
    match goal with |- context [if ?b then _ else _] => destruct b end;
    cbn [fst snd]; by rewrite ?slice_concat, ?append_empty_r.
Qed.

Lemma determine_input_type_image w s i :
  (determine_input_type w s).2 = Ret (image, i) →
  str_in (splitext w s).2 img_ext_list = true.
Proof.
  unfold determine_input_type.
  destruct (path_isdir w s); [done|].
  destruct (path_isfile w s).
  - by destruct (str_in (splitext w s).2 img_ext_list),
               (str_in (splitext w s).2 vid_ext_list).
  - destruct (Py.contains "usb" s); [|done].
    by destruct (Py.int_of_str (Py.slice_from 3 s)).
Qed.

Lemma startup_queue w a g :
  (startup w a).2 = Ret g →
  (∀ f, In f (imgs_list g) → str_in (splitext w f).2 img_ext_list = true) ∧
  (source_type g = folder →
   ∀ f, In f (imgs_list g) → In f (glob w (arg_source a +:+ "/*"))).
Proof.
  intros Hs.
  destruct (startup_inv w a g Hs) as (_ & Hd & _ & _ & Hos & _).
  unfold open_source in Hos.
  destruct (source_type g) eqn:Hk; cbn in Hos.
  - injection Hos as Hq _. rewrite <- Hq. split.
    + intros f Hf. by apply filter_In in Hf as [_ Hf].
    + intros _ f Hf. by apply filter_In in Hf as [Hf _].
  - injection Hos as Hq _. rewrite <- Hq. split; [|done].
    intros f [<- | []]. by apply (determine_input_type_image w _ (usb_idx g)).
  - assert (imgs_list g = []) as ->; [|by split].
    destruct (truthy (arg_resolution a)), (res g) as [[]|]; cbn in Hos; congruence.
  - assert (imgs_list g = []) as ->; [|by split].
    destruct (usb_idx g), (truthy (arg_resolution a)), (res g) as [[]|];
      cbn in Hos; congruence.
Qed.

Lemma iteration_reads g tk :
  ∃ rest, imgs_list g = files_read (iteration g tk).1 ++ rest ∧
          ∀ g', (iteration g tk).2 = Ret g' → imgs_list g' = rest.
Proof.
  rewrite iteration_unfold.
  assert (∀ g1, files_read (frame_body g1 tk).1 = []) as Hfb.
  { intros g1. apply files_read_none.
    by destruct (frame_body_counts g1 tk) as (_ & _ & _ & _ & H & _). }
  destruct (next_frame_cases g tk) as [[_ Hnf] | [_ Hnf]].
  - destruct (imgs_list g) as [|file rest]; rewrite Hnf.
    + exists []. by split.
    + exists rest. rewrite bind_Ret. cbn [fst snd].
      rewrite files_read_app, Hfb. split; [done|].
      intros g' Hr. pose proof (frame_body_endings (set_imgs_list rest g) tk) as He.
      rewrite Hr in He. by destruct He as [_ ->].
  - exists (imgs_list g).
    destruct (bound (cap g)), (cap_ret tk); rewrite Hnf; try done.
    all: rewrite bind_Ret; cbn [fst snd]; rewrite files_read_app, Hfb;
      split; [done|]; intros g' Hr;
      pose proof (frame_body_endings g tk) as He;
      rewrite Hr in He; by destruct He as [_ ->].
Qed.

Lemma loop_reads ticks : ∀ g,
  ∃ rest, imgs_list g = files_read (loop g ticks).1 ++ rest.
Proof.
  induction ticks as [|tk ticks IH]; intros g; [by exists (imgs_list g)|].
  cbn [loop]. destruct (iteration_reads g tk) as (rest & Hq & Hr).
  destruct (iteration g tk) as [ev [g1| | |]]; cbn [fst snd] in *;
    try by exists rest.
  destruct (IH g1) as (rest' & Hq'). exists rest'.
  by rewrite files_read_app, <- app_assoc, <- Hq', (Hr g1 eq_refl).
Qed.

(** Whatever the collaborators answer, the files a run reads are a front
    part of the queue that start-up built, in its order and each once;
    every one of them has a name that ends in .jpg, .jpeg, .png or .bmp,
    in exactly this spelling; and for a folder every one of them was
    found by [glob] under the folder. *)
Theorem reads_follow_queue (w : world) (a : args) (ticks : list tick)
    (g : globals) :
  (startup w a).2 = Ret g →
  (∃ rest, imgs_list g = files_read (run w a ticks).1 ++ rest) ∧
  (∀ f, In f (files_read (run w a ticks).1) →
     ∃ root ext, f = root +:+ ext ∧ In ext img_ext_list) ∧
  (source_type g = folder →
   ∀ f, In f (files_read (run w a ticks).1) →
     In f (glob w (arg_source a +:+ "/*"))).
Proof.
  intros Hs.
  assert (files_read (run w a ticks).1 = files_read (loop g ticks).1) as ->.
  { assert (files_read (startup w a).1 = []) as Hst.
    { apply files_read_none, (count_disjoint _ is_startup_event);
        [apply startup_events | by intros []]. }
    assert (∀ g', files_read (cleanup g').1 = []) as Hcl.
    { intros g'. rewrite cleanup_resources. cbn [fst]. unfold released.
      by destruct (bound (cap g')), (record g'), (bound (arduino g')). }
    unfold run. rewrite Hs.
    destruct (loop g ticks) as [lev [g'|c|e|g']]; cbn [fst snd];
      rewrite !files_read_app, ?Hst, ?Hcl; by rewrite ?app_nil_r. }
  destruct (loop_reads ticks g) as (rest & Hq).
  destruct (startup_queue w a g Hs) as [Hext Hglob].
  split; [by exists rest|]. split.
  - intros f Hf. exists (splitext w f).1, (splitext w f).2.
    split; [by rewrite splitext_concat|].
    apply str_in_In, Hext. rewrite Hq. apply in_or_app. by left.
  - intros Hk f Hf. apply (Hglob Hk). rewrite Hq. apply in_or_app. by left.
Qed.

(** A witness: a folder of three files, of which one is no image, and a
    run that is stopped by the key q on the first frame. *)
Lemma reads_follow_queue_witness :
  ∃ rest,
    ["imgs/a.jpg"; "imgs/c.png"]%string =
      files_read
        (run example_world (example_args "best.pt" "imgs" None false)
           [example_tick true [] 0 113]).1 ++ rest.
Proof.
  exact (proj1 (reads_follow_queue example_world
                  (example_args "best.pt" "imgs" None false)
                  [example_tick true [] 0 113]
                  (example_globals folder ["imgs/a.jpg"; "imgs/c.png"]%string)
                  eq_refl)).
Defined.

(** ** The camera token of an index *)

Lemma uint_digits (d : Decimal.uint) :
  forallb is_digit (list_ascii_of_string (NilEmpty.string_of_uint d)) = true.
Proof. induction d; cbn [NilEmpty.string_of_uint list_ascii_of_string forallb]; by try rewrite IHd. Qed.

Lemma uint_value_acc (d : Decimal.uint) : ∀ q : positive,
  fold_left (λ acc c, 10 * acc + default 0 (Py.digit_of c))
    (list_ascii_of_string (NilEmpty.string_of_uint d)) (Z.pos q) =
  Z.pos (Pos.of_uint_acc d q).
Proof.
  induction d; intros q;
    cbn [NilEmpty.string_of_uint list_ascii_of_string fold_left Pos.of_uint_acc];
    [done|..]; rewrite <- IHd; f_equal;
    try (match goal with
         | |- context [default 0 (Py.digit_of ?c)] =>
             let v := eval vm_compute in (default 0 (Py.digit_of c)) in
             change (default 0 (Py.digit_of c)) with v
         end; lia).
Qed.

Lemma uint_value (d : Decimal.uint) :
  digits_value (list_ascii_of_string (NilEmpty.string_of_uint d)) =
  Z.of_N (Pos.of_uint d).
Proof.
  unfold digits_value.
  induction d;
    cbn [NilEmpty.string_of_uint list_ascii_of_string fold_left Pos.of_uint];
    [done| exact IHd |..];
    cbn [Z.of_N]; by rewrite <- uint_value_acc.
Qed.

Lemma pos_chars (p : positive) :
  ∃ c cs,
    list_ascii_of_string (NilEmpty.string_of_uint (Pos.to_uint p)) = c :: cs ∧
    forallb is_digit (c :: cs) = true ∧ digits_value (c :: cs) = Z.pos p ∧
    NilZero.string_of_uint (Pos.to_uint p) =
      NilEmpty.string_of_uint (Pos.to_uint p).
Proof.
  pose proof (uint_digits (Pos.to_uint p)) as Hd.
  pose proof (uint_value (Pos.to_uint p)) as Hv.
  rewrite DecimalPos.Unsigned.of_to in Hv.
  pose proof (DecimalPos.Unsigned.to_uint_nonnil p) as Hn.
  destruct (Pos.to_uint p) eqn:E; [done|..];
    eexists _, _; (split; [reflexivity|]);
    (split; [exact Hd | split; [exact Hv | reflexivity]]).
Qed.

Lemma strip_signed c cs :
  forallb is_digit (c :: cs) = true →
  Py.strip ("-"%char :: c :: cs) = "-"%char :: c :: cs.
Proof.
  intros Hds. unfold Py.strip.
  change (Py.lstrip ("-"%char :: c :: cs)) with ("-"%char :: c :: cs).
  assert (∃ x l, rev ("-"%char :: c :: cs) = x :: l ∧ is_digit x = true)
    as (x & l & Hr & Hx).
  { change (rev ("-"%char :: c :: cs)) with (rev (c :: cs) ++ ["-"%char]).
    assert (forallb is_digit (rev (c :: cs)) = true) as Hrev.
    { rewrite forallb_forall in *. intros y Hy. apply Hds. by apply in_rev. }
    destruct (rev (c :: cs)) as [|x l] eqn:E.
    - apply (f_equal (@List.length _)) in E. rewrite length_rev in E. done.
    - cbn [forallb] in Hrev. apply andb_prop in Hrev as [Hx _].
      by exists x, (l ++ ["-"%char]). }
  rewrite Hr, (lstrip_digit x l Hx), <- Hr. apply rev_involutive.
Qed.

Lemma of_uint_acc_lower (d : Decimal.uint) : ∀ q : positive,
  Z.pos q * 10 ^ Z.of_nat (String.length (NilEmpty.string_of_uint d)) ≤
  Z.pos (Pos.of_uint_acc d q).
Proof.
  induction d; intros q;
    cbn [NilEmpty.string_of_uint String.length Pos.of_uint_acc]; [cbn; lia|..];
    rewrite Nat2Z.inj_succ, Z.pow_succ_r by lia;
    match goal with
    | |- _ ≤ Z.pos (Pos.of_uint_acc _ ?q') =>
        specialize (IHd q');
        assert (10 * Z.pos q ≤ Z.pos q') by lia
    end;
    pose proof (Z.pow_nonneg 10
                  (Z.of_nat (String.length (NilEmpty.string_of_uint d))));
    nia.
Qed.

Lemma to_uint_leading (p : positive) d : Pos.to_uint p ≠ Decimal.D0 d.
Proof.
  intros E.
  pose proof (DecimalPos.Unsigned.to_of (Pos.to_uint p)) as H.
  rewrite DecimalPos.Unsigned.of_to in H. cbn [N.to_uint] in H.
  rewrite E in H. unfold Decimal.unorm in H.
  destruct (Decimal.nzhead (Decimal.D0 d)) eqn:Hz;
    try (by apply (DecimalFacts.nzhead_nonzero (Decimal.D0 d) d); rewrite Hz).
  apply (DecimalPos.Unsigned.to_uint_nonzero p). by rewrite E, H.
Qed.

(** A positive number below [10 ^ k] is written with at most [k] digits. *)
Lemma pos_digits_bound (p : positive) (k : nat) :
  Z.pos p < 10 ^ Z.of_nat k →
  (String.length (NilEmpty.string_of_uint (Pos.to_uint p)) ≤ k)%nat.
Proof.
  intros Hp.
  pose proof (DecimalPos.Unsigned.of_to p) as Hof.
  pose proof (to_uint_leading p) as Hlead.
  pose proof (DecimalPos.Unsigned.to_uint_nonnil p) as Hnil.
  destruct (Pos.to_uint p) as [|d|d|d|d|d|d|d|d|d|d] eqn:E;
    [done | by destruct (Hlead d) |..];
    cbn [Pos.of_uint] in Hof; injection Hof as Hof;
    cbn [NilEmpty.string_of_uint String.length];
    match type of Hof with
    | Pos.of_uint_acc _ ?q = _ => pose proof (of_uint_acc_lower d q) as Hl
    end;
    rewrite Hof in Hl;
    set (len := String.length (NilEmpty.string_of_uint d)) in *;
    assert (10 ^ Z.of_nat len < 10 ^ Z.of_nat k) as Hlt
      by (pose proof (Z.pow_pos_nonneg 10 (Z.of_nat len)); nia);
    apply Z.pow_lt_mono_r_iff in Hlt; lia.
Qed.

(** [int] reads back what [str] writes, within the limit on digits. *)
Lemma int_of_str_of_int (n : Z) :
  Z.abs n < 10 ^ 4300 →
  Py.int_of_str (Py.str_of_int n) = Ret n.
Proof.
  intros Hn. unfold Py.str_of_int. destruct n as [|p|p].
  - reflexivity.
  - cbn [Z.to_int NilZero.string_of_int].
    pose proof (pos_digits_bound p Py.int_max_str_digits Hn) as Hlen.
    destruct (pos_chars p) as (c & cs & Hc & Hd & Hv & ->).
    rewrite int_of_digits; rewrite ?Hc; [by rewrite Hv|done|done|done].
  - cbn [Z.to_int NilZero.string_of_int].
    pose proof (pos_digits_bound p Py.int_max_str_digits Hn) as Hlen.
    destruct (pos_chars p) as (c & cs & Hc & Hd & Hv & ->).
    rewrite <- length_chars, Hc in Hlen.
    unfold Py.int_of_str. cbn [list_ascii_of_string]. rewrite Hc.
    rewrite (strip_signed c cs Hd).
    change (Ascii.eqb "-" "-") with true. cbv iota.
    unfold Py.literal. rewrite (filter_digits _ Hd).
    destruct (Nat.ltb_spec Py.int_max_str_digits (List.length (c :: cs)));
      [lia|].
    rewrite parse_digits_all; [|done|by right].
    fold (digits_value (c :: cs)). rewrite Hv. reflexivity.
Qed.

Lemma slice_usb (t : string) : Py.slice_from 3 ("usb" +:+ t) = t.
Proof. reflexivity. Qed.

Lemma contains_usb (t : string) : Py.contains "usb" ("usb" +:+ t) = true.
Proof.
  apply prefix_contains.
  change ("usb" +:+ t) with (String "u" (String "s" (String "b" t))).
  cbn. by destruct t.
Qed.

(** For an index [n] that fits a C [int], when no file or directory has
    that name, the source [usb] followed by the decimal writing of [n] is
    camera [n], and a start-up that reaches the loop has opened the capture
    on the index [n]. *)
Theorem camera_token_selects_index (w : world) (a : args) (n : Z) :
  - 2 ^ 31 ≤ n < 2 ^ 31 →
  arg_source a = "usb" +:+ Py.str_of_int n →
  path_isdir w (arg_source a) = false →
  path_isfile w (arg_source a) = false →
  determine_input_type w (arg_source a) = ([], Ret (usb, Some n)) ∧
  ∀ g, (startup w a).2 = Ret g →
       source_type g = usb ∧ usb_idx g = Some n ∧ cap g = Some (inr n) ∧
       In (ECapOpen (inr n)) (startup w a).1.
Proof.
  intros Hn Hsrc Hd Hf.
  assert (Z.abs n < 10 ^ 4300) as Habs.
  { apply Z.le_lt_trans with (2 ^ 31); [lia|].
    apply Z.lt_le_trans with (10 ^ 10); [done|].
    by apply Z.pow_le_mono_r. }
  assert (determine_input_type w (arg_source a) = ([], Ret (usb, Some n))) as Hdet.
  { unfold determine_input_type. rewrite Hd, Hf, Hsrc, contains_usb, slice_usb.
    by rewrite int_of_str_of_int. }
  split; [done|]. intros g Hs.
  destruct (startup_inv w a g Hs) as (_ & Hdg & _ & _ & Hos & _ & _ & _ & _ & _ & Htr).
  rewrite Hdet in Hdg. cbn [snd] in Hdg. injection Hdg as Hk Hi.
  rewrite <- Hk, <- Hi in Hos, Htr. cbn [open_source] in Hos, Htr.
  rewrite !bind_emit in Hos, Htr. cbn [fst snd] in Hos, Htr.
  assert (cap g = Some (inr n)) as Hcap.
  { destruct (truthy (arg_resolution a)), (res g) as [[]|]; cbn in Hos; congruence. }
  repeat split; try done.
  rewrite Htr. apply in_or_app. right. right.
  do 3 (apply in_or_app; right). by left.
Qed.

(** A witness: camera 12. *)
Lemma camera_token_selects_index_witness :
  determine_input_type example_world "usb12" = ([], Ret (usb, Some 12)).
Proof.
  refine (proj1 (camera_token_selects_index example_world
                   (example_args "best.pt" "usb12" None false) 12
                   _ eq_refl eq_refl eq_refl)).
  lia.
Defined.

(** ** The traffic on the serial port *)

Lemma count_le p q (tr : list event) :
  (∀ e, p e = true → q e = true) → (count p tr ≤ count q tr)%nat.
Proof.
  intros Hpq. induction tr as [|e tr IH]; [done|].
  rewrite !count_cons. pose proof (Hpq e) as He.
  destruct (p e), (q e); first [lia | by specialize (He eq_refl)].
Qed.

Lemma count_zero_In p (tr : list event) e :
  count p tr = 0%nat → In e tr → p e = false.
Proof.
  induction tr as [|e' tr IH]; [done|]. rewrite count_cons.
  intros H [-> | Hin]; [by destruct (p e)|]. apply IH; [|done].
  destruct (p e'); [done|lia].
Qed.

Lemma traffic_ok_app a b : traffic_ok a → traffic_ok b → traffic_ok (a ++ b).
Proof.
  unfold traffic_ok. intros (A1 & A2 & A3 & A4) (B1 & B2 & B3 & B4).
  rewrite !count_app. lia.
Qed.

Lemma traffic_ok_quiet tr :
  count is_write tr = 0%nat → count is_call tr = 0%nat → traffic_ok tr.
Proof.
  intros Hw Hc. unfold traffic_ok.
  pose proof (count_le is_other_write is_write tr) as H1.
  pose proof (count_le is_write_ok is_write tr) as H2.
  rewrite Hw, Hc in *. split; [|split; [|split]]; try lia.
  - assert (count is_other_write tr ≤ 0)%nat; [|lia]. apply H1. by intros [].
  - assert (count is_write_ok tr ≤ 0)%nat; [|lia]. apply H2. by intros [| | |? []| | | | | | | | | | | | | | | | | | |].
Qed.

Lemma send_attempts_only_A wr n : ∀ attempt,
  count is_other_write (send_attempts wr "A" attempt n).1 = 0%nat.
Proof.
  induction n as [|n IH]; intros attempt; [done|].
  destruct (wr attempt) as [e|] eqn:H.
  - rewrite (send_attempts_fail _ _ _ _ _ H). cbn [fst].
    by rewrite count_app, IH.
  - by rewrite (send_attempts_ok _ _ _ _ H).
Qed.

Lemma signalling_traffic g tk flag :
  count is_other_write (signalling g tk flag) = 0%nat ∧
  (count is_write (signalling g tk flag) ≤ if flag then 3 else 0)%nat ∧
  (count is_write_ok (signalling g tk flag) ≤ if flag then 1 else 0)%nat ∧
  count is_call (signalling g tk flag) = (if flag then 1 else 0)%nat ∧
  count is_infer (signalling g tk flag) = 0%nat.
Proof.
  destruct flag; [|unfold count; cbn; repeat split; lia].
  unfold signalling, send_signal_to_arduino.
  rewrite bind_emit. cbn [fst]. rewrite !count_cons. cbn [is_other_write
    is_write is_write_ok is_call is_infer].
  destruct (connected (arduino g)); [|unfold count; cbn; repeat split; lia].
  pose proof (send_attempts_only_A (write_result tk) 3 0) as H1.
  pose proof (send_attempts_writes (write_result tk) "A" 3 0) as H2.
  destruct (send_attempts_sleeps (write_result tk) "A" 3 0) as [_ H3].
  destruct (send_attempts_quiet (write_result tk) "A" 3 0) as [H4 _].
  assert (count is_infer (send_attempts (write_result tk) "A" 0 3).1 = 0%nat) as H5.
  { apply (count_disjoint _ is_signal_event);
      [apply send_attempts_signal_events | by intros []]. }
  rewrite H1, H4, H5. repeat split; lia.
Qed.

Lemma frame_body_traffic g tk : traffic_ok (frame_body g tk).1.
Proof.
  rewrite frame_body_shape.
  pose proof (process_detections_only_draws (labels g) (min_thresh g)
                (boxes tk) false) as Hpd.
  assert (traffic_ok (before_detections g)) as Hb.
  { apply traffic_ok_quiet; unfold before_detections; by destruct (resize g). }
  assert (∀ pd, forallb is_draw pd = true → traffic_ok (before_detections g ++ pd))
    as Hbp.
  { intros pd Hd. apply traffic_ok_quiet; rewrite count_app.
    - rewrite (count_disjoint is_write is_draw pd Hd) by (by intros []).
      unfold before_detections. by destruct (resize g).
    - rewrite (count_disjoint is_call is_draw pd Hd) by (by intros []).
      unfold before_detections. by destruct (resize g). }
  destruct (process_detections _ _ _ _) as [pd [flag| | |]]; cbn [fst] in *;
    try by apply Hbp.
  destruct (signalling_traffic g tk flag) as (S1 & S2 & S3 & S4 & S5).
  unfold traffic_ok. rewrite !count_app, S1, S4, S5.
  rewrite (count_disjoint is_other_write is_draw pd Hpd) by (by intros []).
  rewrite (count_disjoint is_write is_draw pd Hpd) by (by intros []).
  rewrite (count_disjoint is_write_ok is_draw pd Hpd) by (by intros []).
  rewrite (count_disjoint is_call is_draw pd Hpd) by (by intros []).
  rewrite (count_disjoint is_infer is_draw pd Hpd) by (by intros []).
  generalize dependent (count is_write (signalling g tk flag)).
  generalize dependent (count is_write_ok (signalling g tk flag)).
  intros cok Hok cw Hw. unfold before_detections, after_signal.
  destruct flag, (resize g), (record g), (quit_key (key tk));
    unfold count; cbn; lia.
Qed.

Lemma next_frame_traffic g tk : traffic_ok (next_frame g tk).1.
Proof.
  apply traffic_ok_quiet; unfold next_frame;
    by destruct (source_type g), (imgs_list g), (bound (cap g)), (cap_ret tk).
Qed.

Lemma iteration_traffic g tk : traffic_ok (iteration g tk).1.
Proof.
  rewrite iteration_unfold. pose proof (next_frame_traffic g tk) as Hnf.
  destruct (next_frame g tk) as [nf [g1| | |]]; try exact Hnf.
  rewrite bind_Ret. cbn [fst] in *.
  apply traffic_ok_app; [done | apply frame_body_traffic].
Qed.

Lemma loop_traffic ticks : ∀ g, traffic_ok (loop g ticks).1.
Proof.
  induction ticks as [|tk ticks IH]; intros g; [by apply traffic_ok_quiet|].
  cbn [loop]. pose proof (iteration_traffic g tk) as Hi.
  destruct (iteration g tk) as [ev [g1| | |]]; cbn [fst snd] in *; try done.
  by apply traffic_ok_app.
Qed.

Lemma run_traffic w a ticks : traffic_ok (run w a ticks).1.
Proof.
  assert (traffic_ok (startup w a).1) as Hs.
  { apply traffic_ok_quiet;
      (apply (count_disjoint _ is_startup_event);
       [apply startup_events | by intros []]). }
  assert (∀ g, traffic_ok (cleanup g).1) as Hc.
  { intros g. rewrite cleanup_resources. cbn [fst]. unfold released.
    apply traffic_ok_quiet;
      by destruct (bound (cap g)), (record g), (bound (arduino g)). }
  unfold run. destruct (startup w a) as [ev [g| | |]]; cbn [fst snd] in *;
    try done.
  pose proof (loop_traffic ticks g) as Hl.
  destruct (loop g ticks) as [lev [g'|c|e|g']]; cbn [fst snd] in *;
    repeat apply traffic_ok_app; done.
Qed.

(** In a whole run nothing but the signal 'A' is ever written to the
    serial port; there are at most three writes, and at most one accepted
    write, for each call of [send_signal_to_arduino]; and there is at most
    one call for each inference.  Start-up and the clean-up block write
    nothing. *)
Theorem serial_traffic_bounds (w : world) (a : args) (ticks : list tick) :
  (∀ data ok, In (ESerialWrite data ok) (run w a ticks).1 → data = "A"%string) ∧
  (count is_write (run w a ticks).1 ≤ 3 * count is_call (run w a ticks).1)%nat ∧
  (count is_write_ok (run w a ticks).1 ≤ count is_call (run w a ticks).1)%nat ∧
  (count is_call (run w a ticks).1 ≤ count is_infer (run w a ticks).1)%nat ∧
  count is_write (startup w a).1 = 0%nat ∧
  (∀ g, count is_write (cleanup g).1 = 0%nat).
Proof.
  destruct (run_traffic w a ticks) as (H1 & H2 & H3 & H4).
  split; [|split; [done|split; [done|split; [done|split]]]].
  - intros data ok Hin.
    pose proof (count_zero_In _ _ _ H1 Hin) as H. cbn in H.
    apply negb_false_iff, String.eqb_eq in H. done.
  - apply (count_disjoint _ is_startup_event);
      [apply startup_events | by intros []].
  - intros g. rewrite cleanup_resources. cbn [fst]. unfold released.
    by destruct (bound (cap g)), (record g), (bound (arduino g)).
Qed.
